(** * uhppoted-acl-s3: the [compare-acl] command

    A shallow embedding of [commands/compare_acl.go] and of the earlier
    revision of the same file, together with the properties the
    specification states about them.

    Layout:
    - [GoStrings]  : the parts of Go's [strings], [unicode] and
                     [unicode/utf8] packages the command relies on;
    - effects      : a state and error monad that also collects the events
                     of a run; collaborators that live outside the two
                     source files are fields of [World];
    - [Template]   : the report template of [COMPARE_ACL];
    - [Cmd]        : [commands/compare_acl.go];
    - [Cmd0]       : the earlier revision of the command;
    - [DiffEngine] : the diff contract of section 4.4 of the specification;
    - [Sample]     : a concrete installation, for examples and instances;
    - the vocabulary of the properties, then the lemmas and theorems.      *)

From Stdlib Require Import ZArith NArith Strings.String Strings.Ascii Strings.Byte.
From stdpp Require Import gmap strings list fin_maps sorting pretty.

Local Open Scope string_scope.
Local Open Scope list_scope.

(* ===================================================================== *)
(** ** Go's strings: bytes, decoded as UTF-8 where the library does so    *)
(* ===================================================================== *)

Module GoStrings.

Local Open Scope N_scope.

(** A Go [string] is a sequence of bytes; Rocq's [string] is the same.
    The library functions below work on the byte values. *)
Definition bytes_of (s : string) : list N :=
  map N_of_ascii (list_ascii_of_string s).

Definition of_bytes (l : list N) : string :=
  string_of_list_ascii (map ascii_of_N l).

(** [unicode/utf8] *)
Definition RuneError : N := 0xFFFD.
Definition RuneSelf : N := 0x80.
Definition UTFMax : nat := 4.
Definition locb : N := 0x80.
Definition hicb : N := 0xBF.

(** The [first] table with its accept ranges: for a leading byte of a
    multi-byte sequence, the sequence's size and the range allowed for
    the second byte; [None] for ASCII and for invalid leading bytes. *)
Definition first (s0 : N) : option (nat * N * N) :=
  if (0xC2 <=? s0) && (s0 <=? 0xDF) then Some (2%nat, locb, hicb)
  else if s0 =? 0xE0 then Some (3%nat, 0xA0, hicb)
  else if (0xE1 <=? s0) && (s0 <=? 0xEC) then Some (3%nat, locb, hicb)
  else if s0 =? 0xED then Some (3%nat, locb, 0x9F)
  else if (0xEE <=? s0) && (s0 <=? 0xEF) then Some (3%nat, locb, hicb)
  else if s0 =? 0xF0 then Some (4%nat, 0x90, hicb)
  else if (0xF1 <=? s0) && (s0 <=? 0xF3) then Some (4%nat, locb, hicb)
  else if s0 =? 0xF4 then Some (4%nat, locb, 0x8F)
  else None.

Definition continuation (b : N) : bool := (locb <=? b) && (b <=? hicb).

(** [utf8.DecodeRuneInString]: the first rune of [s] and its width. *)
Definition DecodeRune (s : list N) : N * nat :=
  match s with
  | [] => (RuneError, 0%nat)
  | s0 :: t =>
    match first s0 with
    | None => if s0 <? RuneSelf then (s0, 1%nat) else (RuneError, 1%nat)
    | Some (sz, lo, hi) =>
      if (length s <? sz)%nat then (RuneError, 1%nat) else
      match t with
      | s1 :: t1 =>
        if (s1 <? lo) || (hi <? s1) then (RuneError, 1%nat) else
        if (sz <=? 2)%nat
        then (N.lor (N.shiftl (N.land s0 0x1F) 6) (N.land s1 0x3F), 2%nat)
        else
        match t1 with
        | s2 :: t2 =>
          if negb (continuation s2) then (RuneError, 1%nat) else
          if (sz <=? 3)%nat
          then (N.lor (N.lor (N.shiftl (N.land s0 0x0F) 12)
                             (N.shiftl (N.land s1 0x3F) 6))
                      (N.land s2 0x3F), 3%nat)
          else
          match t2 with
          | s3 :: _ =>
            if negb (continuation s3) then (RuneError, 1%nat) else
            (N.lor (N.lor (N.lor (N.shiftl (N.land s0 0x07) 18)
                                 (N.shiftl (N.land s1 0x3F) 12))
                          (N.shiftl (N.land s2 0x3F) 6))
                   (N.land s3 0x3F), 4%nat)
          | [] => (RuneError, 1%nat)
          end
        | [] => (RuneError, 1%nat)
        end
      | [] => (RuneError, 1%nat)
      end
    end
  end.

(** [utf8.RuneStart] *)
Definition RuneStart (b : N) : bool := negb (N.land b 0xC0 =? 0x80).

(** The backwards scan of [utf8.DecodeLastRuneInString]: from [start],
    down to [lim], stop at the first byte that can start a rune. The
    result is the index where the scan stopped, [None] when it ran
    below [lim]. *)
Fixpoint scan_back (s : list N) (start : nat) (steps : nat) : option nat :=
  match steps with
  | O => None
  | S k =>
    match s !! start with
    | Some b => if RuneStart b then Some start
                else match start with
                     | O => None
                     | S p => scan_back s p k
                     end
    | None => None
    end
  end.

(** [utf8.DecodeLastRuneInString]: the last rune of [s] and its width. *)
Definition DecodeLastRune (s : list N) : N * nat :=
  let end_ := length s in
  match end_ with
  | O => (RuneError, 0%nat)
  | S start =>
    match s !! start with
    | None => (RuneError, 0%nat)
    | Some r =>
      if r <? RuneSelf then (r, 1%nat) else
      let lim := (end_ - UTFMax)%nat in
      (* for start--; start >= lim; start-- *)
      let start' :=
        match start with
        | O => 0%nat                       (* start < 0: start = 0 *)
        | S p =>
          match scan_back s p (S p - lim) with
          | Some i => i
          | None => match lim with O => 0%nat | S l => l end
          end
        end in
      let '(r', size) := DecodeRune (drop start' s) in
      if (start' + size =? end_)%nat then (r', size) else (RuneError, 1%nat)
    end
  end.

(** [unicode.IsSpace]: the Latin-1 cases, then the [White_Space] table. *)
Definition IsSpace (r : N) : bool :=
  if r <=? 0xFF then
    (r =? 0x09) || (r =? 0x0A) || (r =? 0x0B) || (r =? 0x0C) || (r =? 0x0D)
    || (r =? 0x20) || (r =? 0x85) || (r =? 0xA0)
  else
    (r =? 0x1680) || ((0x2000 <=? r) && (r <=? 0x200A))
    || (r =? 0x2028) || (r =? 0x2029) || (r =? 0x202F)
    || (r =? 0x205F) || (r =? 0x3000).

(** [for i, r := range s]: the runes of [s] with their widths. *)
Fixpoint range_aux (fuel : nat) (s : list N) : list (N * nat) :=
  match fuel with
  | O => []
  | S n =>
    match s with
    | [] => []
    | _ => let rw := DecodeRune s in rw :: range_aux n (drop (snd rw) s)
    end
  end.

Definition range (s : list N) : list (N * nat) := range_aux (length s) s.

(** [strings.indexFunc]: the byte index of the first rune [r] with
    [f r = truth]; [None] is Go's [-1]. *)
Fixpoint indexFunc_aux (rs : list (N * nat)) (f : N -> bool) (truth : bool)
    (i : nat) : option nat :=
  match rs with
  | [] => None
  | (r, w) :: rest =>
    if Bool.eqb (f r) truth then Some i
    else indexFunc_aux rest f truth (i + w)
  end.

Definition indexFunc (s : list N) (f : N -> bool) (truth : bool) : option nat :=
  indexFunc_aux (range s) f truth 0.

(** [strings.lastIndexFunc]: [for i := len(s); i > 0; ...]. *)
Fixpoint lastIndexFunc_aux (fuel : nat) (s : list N) (f : N -> bool)
    (truth : bool) (i : nat) : option nat :=
  match fuel with
  | O => None
  | S n =>
    match i with
    | O => None
    | _ =>
      let '(r, size) := DecodeLastRune (take i s) in
      let i' := (i - size)%nat in
      if Bool.eqb (f r) truth then Some i'
      else lastIndexFunc_aux n s f truth i'
    end
  end.

Definition lastIndexFunc (s : list N) (f : N -> bool) (truth : bool) : option nat :=
  lastIndexFunc_aux (length s) s f truth (length s).

(** [strings.TrimLeftFunc] *)
Definition TrimLeftFunc (s : list N) (f : N -> bool) : list N :=
  match indexFunc s f false with
  | None => []
  | Some i => drop i s
  end.

(** [strings.TrimRightFunc] *)
Definition TrimRightFunc (s : list N) (f : N -> bool) : list N :=
  match lastIndexFunc s f false with
  | Some i =>
    match s !! i with
    | Some c =>
      if RuneSelf <=? c
      then take (i + snd (DecodeRune (drop i s))) s
      else take (S i) s
    | None => take (S i) s
    end
  | None => take 0 s
  end.

(** [strings.TrimFunc] *)
Definition TrimFunc (s : list N) (f : N -> bool) : list N :=
  TrimRightFunc (TrimLeftFunc s f) f.

(** [strings.TrimSpace]: [s] without its leading and trailing white
    space, as defined by Unicode. *)
Definition TrimSpace (s : string) : string :=
  of_bytes (TrimFunc (bytes_of s) IsSpace).

(** [strings.HasPrefix] *)
Definition HasPrefix (s prefix : string) : bool := String.prefix prefix s.

(** The string is empty or every rune of it is white space. *)
Definition whitespace_only (s : string) : bool :=
  forallb (fun rw => IsSpace (fst rw)) (range (bytes_of s)).

End GoStrings.

(* ===================================================================== *)
(** ** Data                                                               *)
(* ===================================================================== *)

(** Go's [error] values are rendered to their message. *)
Definition error := string.

(** [[]byte] *)
Abbreviation bytes := (list byte).

#[global] Instance byte_eq_dec : EqDecision byte := Byte.byte_eq_dec.

(** Modelled from the spec: the record type of [uhppoted-api] is not in
    the source files. Section 3, Record: "uniquely identified by a key
    (e.g. a card/credential number) within a device's record set,
    carrying a set of named fields ... compared for equality
    field-by-field". *)
Record record := mkRecord {
  key : N;
  fields : gmap string string;
}.

#[global] Instance record_eq_dec : EqDecision record.
Proof. solve_decision. Defined.

(** Modelled from the spec: [acl.ACL] is declared in [uhppoted-api].
    Section 3, ACL: "a mapping from device identifier to an ordered
    sequence of access records". *)
Abbreviation ACL := (gmap N (list record)).

(** [uhppote.Device], by its serial number, and [device.IDevice]: types
    of [uhppote-core] that the command only passes on. *)
Definition Device := N.
Record IDevice := mkIDevice { Debug : bool }.

(** [config.Config]: the command hands it to [getDevices] and looks at
    nothing of it. *)
Record Config := mkConfig { conf_devices : list Device }.

(** The [File] struct that [targz] bundles. *)
Record File := mkFile { file_name : string; file_bytes : bytes }.

(** Arguments of a [Printf]. *)
Inductive arg :=
| AStr (s : string)
| AInt (n : Z)
| ADev (d : N).

(** Where a [*log.Logger] writes: the rotating event log or stdout. *)
Inductive Logger :=
| TickerLog (filename : string) (maxsize : Z)
| StdoutLog (prefix : string).

(** The [io.Writer]s a report is rendered to: [os.Stdout], an [*os.File]
    and the [strings.Builder] of [upload]. *)
Inductive Writer :=
| Stdout
| FileW (name : string)
| BuilderW.

(** Everything the command does to the outside, in order. *)
Inductive event :=
| EvUrlParse (rawurl : string)
| EvConfLoad (path : string)
| EvGetDevices (debug : bool)
| EvLog (lg : Logger) (format : string) (args : list arg)
| EvFetchHTTP (url : string)
| EvFetchS3 (url credentials region : string)
| EvUntar (b : bytes)
| EvVerify (uname : string) (tsv signature : bytes) (keysdir : string)
| EvParseTSV (tsv : bytes) (devices : list Device)
| EvGetACL (devices : list Device)
| EvNow
| EvCreate (file : string)
| EvClose (file : string)
| EvReport (current list : ACL) (template : string) (w : Writer)
| EvReport0 (current list : ACL) (workdir : string)
| EvWrite (w : Writer) (text : string)
| EvSign (rpt : bytes) (keyfile : string)
| EvTargz (files : list File)
| EvStoreHTTP (url : string) (b : bytes)
| EvStoreS3 (url credentials region : string) (b : bytes).

(* ===================================================================== *)
(** ** Effects                                                            *)
(* ===================================================================== *)

(** What a run can change: the files of the local file system, what was
    printed to stdout, the contents of the [strings.Builder] in scope,
    and how often the clock was read. *)
Record State := mkState {
  fs : gmap string string;
  stdout : string;
  builder : string;
  ticks : nat;
}.

Definition initial (files : gmap string string) : State :=
  {| fs := files; stdout := ""; builder := ""; ticks := 0 |}.

(** A Go call that returns [(T, error)] or [error]: [Ok] is [err == nil]. *)
Inductive result (A : Type) :=
| Ok (a : A)
| Err (e : error).
Arguments Ok {A} a.
Arguments Err {A} e.

(** A run: what is returned, the state it leaves, and the events it
    caused, in order. *)
Definition M (A : Type) : Type := State -> result A * State * list event.

Definition outcome {A} (r : result A * State * list event) : result A := r.1.1.
Definition final {A} (r : result A * State * list event) : State := r.1.2.
Definition events {A} (r : result A * State * list event) : list event := r.2.

Definition ret {A} (a : A) : M A := fun st => (Ok a, st, []).

(** [return err] *)
Definition fail {A} (e : error) : M A := fun st => (Err e, st, []).

(** [x, err := m; if err != nil { return err }; k x] *)
Definition bind {A B} (m : M A) (k : A -> M B) : M B :=
  fun st =>
    match m st with
    | (Ok a, st', evs) =>
      let r := k a st' in (outcome r, final r, evs ++ events r)
    | (Err e, st', evs) => (Err e, st', evs)
    end.

(** A call whose error the caller does not test: the error becomes a value. *)
Definition unchecked {A} (m : M A) : M (result A) :=
  fun st => let r := m st in (Ok (outcome r), final r, events r).

(** [if err != nil { return fmt.Errorf(..., err) }] *)
Definition wrap {A} (f : error -> error) (m : M A) : M A :=
  fun st =>
    match m st with
    | (Ok a, st', evs) => (Ok a, st', evs)
    | (Err e, st', evs) => (Err (f e), st', evs)
    end.

(** [defer d]: [d] runs when the function returns, whatever it returns. *)
Definition defer {A} (d : M unit) (body : M A) : M A :=
  fun st =>
    let r := body st in
    let r' := d (final r) in
    (outcome r, final r', events r ++ events r').

Declare Scope go_scope.
Delimit Scope go_scope with go.
Notation "x <- m ;; k" := (bind m (fun x => k))
  (at level 100, m at next level, right associativity) : go_scope.
Notation "m ;;; k" := (bind m (fun _ => k))
  (at level 100, right associativity) : go_scope.
Local Open Scope go_scope.

(** State updates, field by field. *)
Definition set_fs (files : gmap string string) (st : State) : State :=
  {| fs := files; stdout := stdout st; builder := builder st; ticks := ticks st |}.

Definition set_stdout (out : string) (st : State) : State :=
  {| fs := fs st; stdout := out; builder := builder st; ticks := ticks st |}.

Definition set_builder (w : string) (st : State) : State :=
  {| fs := fs st; stdout := stdout st; builder := w; ticks := ticks st |}.

Definition tick (st : State) : State :=
  {| fs := fs st; stdout := stdout st; builder := builder st; ticks := S (ticks st) |}.

Definition emit (e : event) : M unit :=
  fun st => (Ok tt, st, [e]).

(** A call of a collaborator: the call is recorded, its answer returned. *)
Definition call {A} (e : event) (r : result A) : M A :=
  fun st => (r, st, [e]).

Definition of_error (e : option error) : result unit :=
  match e with
  | None => Ok tt
  | Some err => Err err
  end.

(** [lg.Printf(format, args...)] *)
Definition Printf (lg : Logger) (format : string) (args : list arg) : M unit :=
  emit (EvLog lg format args).

(** What [w.Write(text)] changes, for the three writers; a file grows at
    its end. *)
Definition written (w : Writer) (text : string) (st : State) : State :=
  match w with
  | Stdout => set_stdout (stdout st +:+ text) st
  | FileW name => set_fs (<[name := default "" (fs st !! name) +:+ text]> (fs st)) st
  | BuilderW => set_builder (builder st +:+ text) st
  end.

Definition write (w : Writer) (text : string) : M unit :=
  fun st => (Ok tt, written w text st, [EvWrite w text]).

(** [var w strings.Builder] *)
Definition new_builder : M unit :=
  fun st => (Ok tt, set_builder "" st, []).

(** [w.String()] *)
Definition builder_String : M string := fun st => (Ok (builder st), st, []).

(** The collaborators of the command that are not part of the two source
    files: the standard library's I/O, the [uhppoted-api] and
    [uhppote-core] packages, and the other files of package [commands]
    ([untar], [targz], [verify], [sign], [report], the fetch and store
    functions, [getDevices]). Each is a function of its arguments. *)
Record World := mkWorld {
  (** [url.Parse(rawurl)], answered with the parsed URL's [String()] *)
  w_url_Parse : string -> result string;
  (** [config.NewConfig()] followed by [conf.Load(path)] *)
  w_conf_Load : string -> result Config;
  w_getDevices : Config -> bool -> IDevice * list Device;
  w_fetchHTTP : string -> result bytes;
  w_fetchS3 : string -> string -> string -> result bytes;
  (** [untar(r)]: the payload, the signature, the signer and the error *)
  w_untar : bytes -> bytes * bytes * string * option error;
  w_verify : string -> bytes -> bytes -> string -> option error;
  w_ParseTSV : bytes -> list Device -> result ACL;
  w_GetACL : IDevice -> list Device -> result ACL;
  (** [report(current, list, template, w)]: what it writes to [w] and
      the error it returns *)
  w_report : ACL -> ACL -> string -> Writer -> string * option error;
  (** the earlier [report(current, list, workdir, log)]: the files it
      leaves behind *)
  w_report0 : ACL -> ACL -> string -> gmap string string -> gmap string string;
  w_sign : bytes -> string -> result bytes;
  w_targz : list File -> result bytes;
  w_storeHTTP : string -> bytes -> option error;
  w_storeS3 : string -> string -> string -> bytes -> option error;
  w_os_Create : string -> option error;
  (** [time.Now().Format(layout)] at the n-th reading of the clock *)
  w_Now_Format : nat -> string -> string;
  w_filepath_Join : string -> string -> string;
}.

(** [time.Now().Format(layout)] *)
Definition Now_Format (W : World) (layout : string) : M string :=
  fun st => (Ok (w_Now_Format W (ticks st) layout), tick st, [EvNow]).

(** [os.Create(file)]: the file exists and is empty afterwards. *)
Definition os_Create (W : World) (file : string) : M Writer :=
  fun st =>
    match w_os_Create W file with
    | Some e => (Err e, st, [EvCreate file])
    | None => (Ok (FileW file), set_fs (<[file := ""]> (fs st)) st, [EvCreate file])
    end.

(** [f.Close()] *)
Definition Close (w : Writer) : M unit :=
  match w with
  | FileW name => emit (EvClose name)
  | _ => ret tt
  end.

(** [report(current, list, template, w)] of package [commands]: the
    diff of the two ACLs rendered through [template] into [w]. *)
Definition pkg_report (W : World) (current list_ : ACL) (template : string)
    (w : Writer) : M unit :=
  emit (EvReport current list_ template w) ;;;
  write w (fst (w_report W current list_ template w)) ;;;
  fun st => (of_error (snd (w_report W current list_ template w)), st, []).

(** The earlier [report(current, list, workdir, log)]: it owns the
    report file; nothing it returns is looked at. *)
Definition pkg_report0 (W : World) (current list_ : ACL) (workdir : string)
    (log : Logger) : M unit :=
  fun st => (Ok tt, set_fs (w_report0 W current list_ workdir (fs st)) st,
             [EvReport0 current list_ workdir]).

(** [for _, x := range xs { body x }] *)
Fixpoint for_each {A} (xs : list A) (body : A -> M unit) : M unit :=
  match xs with
  | [] => ret tt
  | x :: rest => body x ;;; for_each rest body
  end.

(** [len(l)] *)
Definition len {A} (l : list A) : Z := Z.of_nat (length l).

(** Modelled from the spec: the [Diff] type is declared in [uhppoted-api];
    the template names its four fields. Section 3, Diff: "four disjoint
    classifications over the union of record keys"; [Updated] "carries
    enough information to show old vs. new": the current and the
    authoritative record. *)
Record Diff := mkDiff {
  Unchanged : list record;
  Updated : list (record * record);
  Added : list record;
  Deleted : list record;
}.

(* ===================================================================== *)
(** ** The report template of [COMPARE_ACL]                               *)
(* ===================================================================== *)

Module Template.

(** The template, as [COMPARE_ACL] has it. *)
Definition text : string :=
"ACL DIFF REPORT {{ .DateTime }}
{{range $id,$value := .Diffs}}
  DEVICE {{ $id }}{{if $value.Unchanged}}
    Incorrect:  {{range $value.Updated}}{{.}}
                {{end}}{{end}}{{if $value.Added}}
    Missing:    {{range $value.Added}}{{.}}
                {{end}}{{end}}{{if $value.Deleted}}
    Unexpected: {{range $value.Deleted}}{{.}}
                {{end}}{{end}}{{end}}
".

(** What executing a template writes, piece by piece: the template's
    own text between two actions, or the value an action prints. *)
Inductive chunk :=
| Text (s : string)
| Value (s : string).

Definition chunk_string (c : chunk) : string :=
  match c with
  | Text s => s
  | Value s => s
  end.

(** The bytes that reach the writer. *)
Definition output (cs : list chunk) : string :=
  foldr (fun c acc => chunk_string c +:+ acc) "" cs.

Definition nl : string := String (ascii_of_nat 10) "".

(** The text nodes of the template. *)
Definition title : string := "ACL DIFF REPORT ".
Definition device_hdr : string := nl +:+ "  DEVICE ".
Definition incorrect_hdr : string := nl +:+ "    Incorrect:  ".
Definition missing_hdr : string := nl +:+ "    Missing:    ".
Definition unexpected_hdr : string := nl +:+ "    Unexpected: ".
Definition item_sep : string := nl +:+ "                ".

(** [{{if pipeline}}] on a slice: true when its length is not zero. *)
Definition truth {A} (l : list A) : bool :=
  match l with
  | [] => false
  | _ :: _ => true
  end.

(** [{{range $id, $value := .Diffs}}] visits a map in the order of its
    keys. *)
Definition sorted_keys {A} (m : gmap N A) : list N :=
  merge_sort N.le (map fst (map_to_list m)).

Section Render.
(** How [{{ $id }}] and [{{.}}] print their values ([fmt]'s work). *)
Variable fmt_id : N -> string.
Variable fmt_record : record -> string.
Variable fmt_update : record * record -> string.

(** [{{range items}}{{.}}<item_sep>{{end}}] *)
Definition range_items {A} (fmt : A -> string) (items : list A) : list chunk :=
  flat_map (fun x => [Value (fmt x); Text item_sep]) items.

(** The body of the outer [range] for one device. *)
Definition render_device (id : N) (value : Diff) : list chunk :=
  [Text device_hdr; Value (fmt_id id)]
  ++ (if truth (Unchanged value)
      then Text incorrect_hdr :: range_items fmt_update (Updated value)
      else [])
  ++ (if truth (Added value)
      then Text missing_hdr :: range_items fmt_record (Added value)
      else [])
  ++ (if truth (Deleted value)
      then Text unexpected_hdr :: range_items fmt_record (Deleted value)
      else []).

(** The whole template on [{DateTime, Diffs}]. *)
Definition render (DateTime : string) (Diffs : gmap N Diff) : list chunk :=
  [Text title; Value DateTime; Text nl]
  ++ flat_map (fun id => match Diffs !! id with
                         | Some value => render_device id value
                         | None => []
                         end) (sorted_keys Diffs)
  ++ [Text nl].
End Render.

(** The lexer of [text/template]: the template is cut at the
    delimiters into text nodes and actions. *)
Inductive token :=
| TText (s : string)
| TAction (s : string).

Definition flush (cur : string) (acc : list token) : list token :=
  match cur with
  | "" => acc
  | _ => TText cur :: acc
  end.

(** Where the lexer is: in text, inside an action, or on the second
    brace of a left or of a right delimiter. *)
Inductive mode := InText | InAction | LeftDelim | RightDelim.

Definition is_delim (c : ascii) (s : string) : bool :=
  match s with
  | String a (String b _) => Ascii.eqb a c && Ascii.eqb b c
  | _ => false
  end.

Fixpoint lex (m : mode) (cur : string) (s : string) : list token :=
  match s with
  | "" =>
    match m with
    | InAction => [TAction cur]
    | _ => flush cur []
    end
  | String a rest =>
    match m with
    | LeftDelim => lex InAction "" rest
    | RightDelim => lex InText "" rest
    | InText =>
      if is_delim "{" s then flush cur (lex LeftDelim "" rest)
      else lex InText (cur +:+ String a "") rest
    | InAction =>
      if is_delim "}" s then TAction cur :: lex RightDelim "" rest
      else lex InAction (cur +:+ String a "") rest
    end
  end.

Definition tokens : list token := lex InText "" text.

End Template.

(* ===================================================================== *)
(** ** [commands/compare_acl.go]                                          *)
(* ===================================================================== *)

(** The package's defaults ([DEFAULT_CONFIG] and the like), declared in
    another file of the package. *)
Record Defaults := mkDefaults {
  DEFAULT_CONFIG : string;
  DEFAULT_WORKDIR : string;
  DEFAULT_KEYSDIR : string;
  DEFAULT_KEYFILE : string;
  DEFAULT_CREDENTIALS : string;
  DEFAULT_REGION : string;
  DEFAULT_LOGFILE : string;
  DEFAULT_LOGFILESIZE : Z;
}.

Module Cmd.

Record CompareACL := mkCompareACL {
  acl : string;
  rpt : string;
  config : string;
  workdir : string;
  keysdir : string;
  keyfile : string;
  credentials : string;
  region : string;
  logFile : string;
  logFileSize : Z;
  template : string;
  noverify : bool;
  noreport : bool;
  nolog : bool;
  debug : bool;
}.

(** [var COMPARE_ACL]; the fields the literal leaves out are zero. *)
Definition COMPARE_ACL (D : Defaults) : CompareACL :=
  {| acl := "";
     rpt := "";
     config := DEFAULT_CONFIG D;
     workdir := DEFAULT_WORKDIR D;
     keysdir := DEFAULT_KEYSDIR D;
     keyfile := DEFAULT_KEYFILE D;
     credentials := DEFAULT_CREDENTIALS D;
     region := DEFAULT_REGION D;
     logFile := DEFAULT_LOGFILE D;
     logFileSize := DEFAULT_LOGFILESIZE D;
     noverify := false;
     noreport := false;
     nolog := false;
     debug := false;
     template := Template.text |}.

(** The fields of [CompareACL] a flag can be bound to. *)
Inductive field :=
| f_acl | f_rpt | f_config | f_workdir | f_keysdir | f_keyfile
| f_credentials | f_region | f_logFile | f_logFileSize | f_template
| f_noverify | f_noreport | f_nolog | f_debug.

(** [FlagSet]: the flags it registers, each with the field it sets. *)
Definition FlagSet : list (string * field) :=
  [ ("acl", f_acl);
    ("report", f_rpt);
    ("credentials", f_credentials);
    ("region", f_region);
    ("keys", f_keysdir);
    ("key", f_keyfile);
    ("config", f_config);
    ("workdir", f_workdir);
    ("no-report", f_noreport);
    ("no-log", f_nolog);
    ("debug", f_debug) ].

Section Run.
Variable W : World.
Variable c : CompareACL.

Definition fetchHTTP (url : string) (log : Logger) : M bytes :=
  acl_ <- call (EvFetchHTTP url) (w_fetchHTTP W url) ;;
  Printf log "Fetched ACL from %v (%d bytes)" [AStr url; AInt (len acl_)] ;;;
  ret acl_.

Definition storeHTTP (url : string) (r : bytes) : M unit :=
  call (EvStoreHTTP url r) (of_error (w_storeHTTP W url r)).

Definition fetchS3 (url : string) (log : Logger) : M bytes :=
  acl_ <- call (EvFetchS3 url (credentials c) (region c))
               (w_fetchS3 W url (credentials c) (region c)) ;;
  Printf log "Fetched ACL from %v (%d bytes)" [AStr url; AInt (len acl_)] ;;;
  ret acl_.

Definition storeS3 (uri : string) (r : bytes) : M unit :=
  call (EvStoreS3 uri (credentials c) (region c) r)
       (of_error (w_storeS3 W uri (credentials c) (region c) r)).

Definition report (current list_ : ACL) (log : Logger) : M unit :=
  Printf log "Generating ACL 'diff' report" [] ;;;
  if noreport c then
    _ <- unchecked (pkg_report W current list_ (template c) Stdout) ;;
    ret tt
  else
    filename <- Now_Format W "acl-2006-01-02T150405.rpt" ;;
    let file := w_filepath_Join W (workdir c) filename in
    f <- os_Create W file ;;
    defer (Close f)
      (Printf log "Writing 'diff' report to %v" [AStr file] ;;;
       pkg_report W current list_ (template c) f).

Definition upload (current list_ : ACL) (log : Logger) : M unit :=
  Printf log "Uploading ACL 'diff' report" [] ;;;
  new_builder ;;;
  pkg_report W current list_ (template c) BuilderW ;;;
  filename <- Now_Format W "acl-2006-01-02T150405.rpt" ;;
  w <- builder_String ;;
  let rpt_ := list_byte_of_string w in
  signature <- call (EvSign rpt_ (keyfile c)) (w_sign W rpt_ (keyfile c)) ;;
  let files := [mkFile filename rpt_; mkFile "signature" signature] in
  b <- call (EvTargz files) (w_targz W files) ;;
  Printf log "tar'd report (%v bytes) and signature (%v bytes): %v bytes"
         [AInt (len rpt_); AInt (len signature); AInt (len b)] ;;;
  let f := if GoStrings.HasPrefix (rpt c) "s3://" then storeS3 else storeHTTP in
  f (rpt c) b ;;;
  Printf log "Uploaded to %v" [AStr (rpt c)] ;;;
  ret tt.

Definition execute (u : IDevice) (uri : string) (devices : list Device)
    (log : Logger) : M unit :=
  Printf log "Fetching ACL from %v" [AStr uri] ;;;
  let f := if GoStrings.HasPrefix uri "s3://" then fetchS3 else fetchHTTP in
  b <- f uri log ;;
  x <- call (EvUntar b) (Ok (w_untar W b)) ;;
  let '(tsv, signature, uname, err) := x in
  Printf log "Extracted ACL from %v: %v bytes, signature: %v bytes"
         [AStr uri; AInt (len tsv); AInt (len signature)] ;;;
  (if negb (noverify c)
   then call (EvVerify uname tsv signature (keysdir c))
             (of_error (w_verify W uname tsv signature (keysdir c)))
   else ret tt) ;;;
  list_ <- call (EvParseTSV tsv devices) (w_ParseTSV W tsv devices) ;;
  for_each (map_to_list list_)
    (fun kl => Printf log "%v  Retrieved %v records"
                      [ADev (fst kl); AInt (len (snd kl))]) ;;;
  current <- call (EvGetACL devices) (w_GetACL W u devices) ;;
  report current list_ log ;;;
  (if decide (rpt c <> "") then upload current list_ log else ret tt) ;;;
  ret tt.

Definition Execute : M unit :=
  if decide (GoStrings.TrimSpace (acl c) = "") then
    fail "compare-acl requires a URL for the authoritative ACL file in the command options"
  else
  uri <- wrap (fun err => "Invalid ACL file URL '" +:+ acl c +:+ "' (" +:+ err +:+ ")")
              (call (EvUrlParse (acl c)) (w_url_Parse W (acl c))) ;;
  conf <- wrap (fun err => "WARN  Could not load configuration (" +:+ err +:+ ")")
               (call (EvConfLoad (config c)) (w_conf_Load W (config c))) ;;
  ud <- call (EvGetDevices (debug c)) (Ok (w_getDevices W conf (debug c))) ;;
  let logger := if negb (nolog c)
                then TickerLog (logFile c) (logFileSize c)
                else StdoutLog "ACL " in
  execute (fst ud) uri (snd ud) logger.
End Run.

End Cmd.

(* ===================================================================== *)
(** ** The earlier revision of the command                                *)
(* ===================================================================== *)

Module Cmd0.

Record CompareACL := mkCompareACL {
  url : string;
  config : string;
  workdir : string;
  keysdir : string;
  credentials : string;
  region : string;
  logFile : string;
  logFileSize : Z;
  noverify : bool;
  nolog : bool;
  debug : bool;
}.

Definition COMPARE_ACL (D : Defaults) : CompareACL :=
  {| url := "";
     config := DEFAULT_CONFIG D;
     workdir := DEFAULT_WORKDIR D;
     keysdir := DEFAULT_KEYSDIR D;
     credentials := DEFAULT_CREDENTIALS D;
     region := DEFAULT_REGION D;
     logFile := DEFAULT_LOGFILE D;
     logFileSize := DEFAULT_LOGFILESIZE D;
     noverify := false;
     nolog := false;
     debug := false |}.

Inductive field :=
| f_url | f_config | f_workdir | f_keysdir | f_credentials | f_region
| f_logFile | f_logFileSize | f_noverify | f_nolog | f_debug.

Definition FlagSet : list (string * field) :=
  [ ("url", f_url);
    ("credentials", f_credentials);
    ("region", f_region);
    ("keys", f_keysdir);
    ("config", f_config);
    ("workdir", f_workdir);
    ("no-log", f_nolog);
    ("debug", f_debug) ].

Section Run.
Variable W : World.
Variable c : CompareACL.

Definition fetchHTTP (url : string) (log : Logger) : M bytes :=
  acl_ <- call (EvFetchHTTP url) (w_fetchHTTP W url) ;;
  Printf log "Fetched ACL from %v (%d bytes)" [AStr url; AInt (len acl_)] ;;;
  ret acl_.

Definition fetchS3 (url : string) (log : Logger) : M bytes :=
  acl_ <- call (EvFetchS3 url (credentials c) (region c))
               (w_fetchS3 W url (credentials c) (region c)) ;;
  Printf log "Fetched ACL from %v (%d bytes)" [AStr url; AInt (len acl_)] ;;;
  ret acl_.

Definition execute (u : IDevice) (uri : string) (devices : list Device)
    (log : Logger) : M unit :=
  Printf log "Fetching ACL from %v" [AStr uri] ;;;
  let f := if GoStrings.HasPrefix uri "s3://" then fetchS3 else fetchHTTP in
  b <- f uri log ;;
  x <- call (EvUntar b) (Ok (w_untar W b)) ;;
  let '(tsv, signature, uname, err) := x in
  Printf log "Extracted ACL from %v: %v bytes, signature: %v bytes"
         [AStr uri; AInt (len tsv); AInt (len signature)] ;;;
  (if negb (noverify c)
   then call (EvVerify uname tsv signature (keysdir c))
             (of_error (w_verify W uname tsv signature (keysdir c)))
   else ret tt) ;;;
  list_ <- call (EvParseTSV tsv devices) (w_ParseTSV W tsv devices) ;;
  for_each (map_to_list list_)
    (fun kl => Printf log "%v  Retrieved %v records"
                      [ADev (fst kl); AInt (len (snd kl))]) ;;;
  current <- call (EvGetACL devices) (w_GetACL W u devices) ;;
  pkg_report0 W current list_ (workdir c) log ;;;
  fail "OOOPS".

Definition Execute : M unit :=
  if decide (GoStrings.TrimSpace (url c) = "") then
    fail "compare-acl requires a URL for the authoritative ACL file in the command options"
  else
  uri <- wrap (fun err => "Invalid ACL file URL '" +:+ url c +:+ "' (" +:+ err +:+ ")")
              (call (EvUrlParse (url c)) (w_url_Parse W (url c))) ;;
  conf <- wrap (fun err => "WARN  Could not load configuration (" +:+ err +:+ ")")
               (call (EvConfLoad (config c)) (w_conf_Load W (config c))) ;;
  ud <- call (EvGetDevices (debug c)) (Ok (w_getDevices W conf (debug c))) ;;
  let logger := if negb (nolog c)
                then TickerLog (logFile c) (logFileSize c)
                else StdoutLog "ACL " in
  execute (fst ud) uri (snd ud) logger.
End Run.

End Cmd0.

(* ===================================================================== *)
(** ** The diff engine                                                    *)
(* ===================================================================== *)

Module DiffEngine.

(** Modelled from the spec: the diff itself ([acl.Compare] of the
    [uhppoted-api] package, reached through the package's [report]) is
    in neither source file. Step 1 of section 4.4: "Build a lookup of
    current records by record key and of authoritative records by
    record key." *)
Definition lookup_by_key (rs : list record) : gmap N record :=
  list_to_map ((fun r => (key r, r)) <$> rs).

(** Modelled from the spec: the comparison of step 2 is missing with the
    engine; "if all compared fields are equal". *)
Definition fields_equal (p : record * record) : bool :=
  bool_decide (fields (fst p) = fields (snd p)).

(** The keys present in both lookups, each with its current and its
    authoritative record. *)
Definition in_both (cur auth : gmap N record) : list (record * record) :=
  snd <$> map_to_list (map_zip cur auth).

(** Modelled from the spec: the per-device classification is missing
    with the engine. Steps 2 to 4 of section 4.4: a key present in both
    is [Unchanged] when the fields are equal and [Updated] otherwise,
    with both records kept; a key only in authoritative is [Added]; a
    key only in current is [Deleted]. *)
Definition diff_device (current authoritative : list record) : Diff :=
  let cur := lookup_by_key current in
  let auth := lookup_by_key authoritative in
  {| Unchanged := fst <$> filter (fun p => fields_equal p = true) (in_both cur auth);
     Updated := filter (fun p => fields_equal p = false) (in_both cur auth);
     Added := snd <$> map_to_list (auth ∖ cur);
     Deleted := snd <$> map_to_list (cur ∖ auth) |}.

(** Modelled from the spec: the engine's entry point is missing.
    "[diff(current ACL, authoritative ACL) -> mapping device-id -> Diff]
    ... per device identifier appearing in either ACL"; a device absent
    from one side has no records there. *)
Definition diff (current authoritative : ACL) : gmap N Diff :=
  merge (fun oc oa =>
           match oc, oa with
           | None, None => None
           | _, _ => Some (diff_device (default [] oc) (default [] oa))
           end) current authoritative.

(** The record keys of one side of a device. *)
Definition keys (rs : list record) : gset N := list_to_set (key <$> rs).

Definition device_records (a : ACL) (dev : N) : list record :=
  default [] (a !! dev).

(** The keys a [Diff] classifies, class by class. *)
Definition unchanged_keys (d : Diff) : list N := key <$> Unchanged d.
Definition updated_keys (d : Diff) : list N := (fun p => key (fst p)) <$> Updated d.
Definition added_keys (d : Diff) : list N := key <$> Added d.
Definition deleted_keys (d : Diff) : list N := key <$> Deleted d.

Definition classified (d : Diff) : list N :=
  unchanged_keys d ++ updated_keys d ++ added_keys d ++ deleted_keys d.

End DiffEngine.

(* ===================================================================== *)
(** ** A concrete installation                                            *)
(* ===================================================================== *)

(** One controller, a signer [uhppoted], and four URLs: a good archive
    over HTTP and over S3, an archive whose signature blob was altered,
    and a blob that is not an archive. The examples and the instances of
    the theorems run in this world. *)
Module Sample.

Definition controller : Device := 405419896%N.

Definition door (d : string) : gmap string string := {[ "door" := d ]}.

(** The scenario of section 8 of the specification. *)
Definition authoritative : ACL :=
  {[ controller := [mkRecord 1001 (door "doorA")] ]}.
Definition current : ACL :=
  {[ controller := [mkRecord 1001 (door "doorB"); mkRecord 1002 (door "doorA")] ]}.

Definition payload : bytes := list_byte_of_string "1001 doorA".
Definition signature : bytes := list_byte_of_string "signed:uhppoted".
Definition altered : bytes := list_byte_of_string "signed:somebody".

Definition archive : bytes := list_byte_of_string "tar(uhppoted.acl,signature)".
Definition tampered : bytes := list_byte_of_string "tar(uhppoted.acl,signature')".
Definition garbage : bytes := list_byte_of_string "<html>".

Definition good_url : string := "http://acl.example.com/uhppoted.tar.gz".
Definition tampered_url : string := "http://acl.example.com/tampered.tar.gz".
Definition garbage_url : string := "http://acl.example.com/index.html".
Definition s3_url : string := "s3://acl/uhppoted.tar.gz".
Definition report_url : string := "s3://reports/uhppoted.tar.gz".

Definition defaults : Defaults :=
  {| DEFAULT_CONFIG := "/etc/uhppoted/uhppoted.conf";
     DEFAULT_WORKDIR := "/var/uhppoted";
     DEFAULT_KEYSDIR := "/etc/uhppoted/acl/keys";
     DEFAULT_KEYFILE := "/etc/uhppoted/acl/keys/uhppoted";
     DEFAULT_CREDENTIALS := "/etc/uhppoted/s3/credentials";
     DEFAULT_REGION := "us-east-1";
     DEFAULT_LOGFILE := "/var/log/uhppoted/uhppoted-acl-s3.log";
     DEFAULT_LOGFILESIZE := 10 |}.

Definition fmt_record (r : record) : string := pretty (key r).
Definition fmt_update (p : record * record) : string := pretty (key (fst p)).

Definition world : World :=
  {| w_url_Parse := fun rawurl => Ok rawurl;
     w_conf_Load := fun _ => Ok (mkConfig [controller]);
     w_getDevices := fun conf debug => (mkIDevice debug, conf_devices conf);
     w_fetchHTTP := fun url =>
       if decide (url = good_url) then Ok archive
       else if decide (url = tampered_url) then Ok tampered
       else if decide (url = garbage_url) then Ok garbage
       else Err "404 Not Found";
     w_fetchS3 := fun url _ _ =>
       if decide (url = s3_url) then Ok archive else Err "NoSuchKey";
     w_untar := fun b =>
       if decide (b = archive) then (payload, signature, "uhppoted", None)
       else if decide (b = tampered) then (payload, altered, "uhppoted", None)
       else ([], [], "", Some "gzip: invalid header");
     w_verify := fun uname tsv sig keysdir =>
       if decide (uname = "uhppoted") then
         if decide (tsv = payload /\ sig = signature) then None
         else Some "crypto/rsa: verification error"
       else Some ("open " +:+ keysdir +:+ "/" +:+ uname +:+ ".pub: no such file or directory");
     w_ParseTSV := fun tsv _ =>
       if decide (tsv = payload) then Ok authoritative
       else Err "missing header";
     w_GetACL := fun _ _ => Ok current;
     w_report := fun current list_ template _ =>
       if decide (template = Template.text)
       then (Template.output
               (Template.render pretty fmt_record fmt_update "2020-08-14 12:00:00"
                  (DiffEngine.diff current list_)), None)
       else ("", Some "template: report: unexpected EOF");
     w_report0 := fun _ _ workdir files => <[workdir +:+ "/acl.rpt" := "report"]> files;
     w_sign := fun _ keyfile =>
       if decide (keyfile = DEFAULT_KEYFILE defaults) then Ok signature
       else Err ("open " +:+ keyfile +:+ ": no such file or directory");
     w_targz := fun files => Ok (flat_map file_bytes files);
     w_storeHTTP := fun _ _ => None;
     w_storeS3 := fun _ _ _ _ => None;
     w_os_Create := fun _ => None;
     w_Now_Format := fun n _ => "acl-2020-08-14T12000" +:+ pretty n +:+ ".rpt";
     w_filepath_Join := fun dir file => dir +:+ "/" +:+ file |}.

(** [COMPARE_ACL] after the flags were read. *)
Definition cmd (acl rpt : string) (noreport : bool) : Cmd.CompareACL :=
  {| Cmd.acl := acl; Cmd.rpt := rpt;
     Cmd.config := DEFAULT_CONFIG defaults;
     Cmd.workdir := DEFAULT_WORKDIR defaults;
     Cmd.keysdir := DEFAULT_KEYSDIR defaults;
     Cmd.keyfile := DEFAULT_KEYFILE defaults;
     Cmd.credentials := DEFAULT_CREDENTIALS defaults;
     Cmd.region := DEFAULT_REGION defaults;
     Cmd.logFile := DEFAULT_LOGFILE defaults;
     Cmd.logFileSize := DEFAULT_LOGFILESIZE defaults;
     Cmd.template := Template.text;
     Cmd.noverify := false; Cmd.noreport := noreport;
     Cmd.nolog := false; Cmd.debug := false |}.

Definition cmd0 (url : string) : Cmd0.CompareACL :=
  {| Cmd0.url := url;
     Cmd0.config := DEFAULT_CONFIG defaults;
     Cmd0.workdir := DEFAULT_WORKDIR defaults;
     Cmd0.keysdir := DEFAULT_KEYSDIR defaults;
     Cmd0.credentials := DEFAULT_CREDENTIALS defaults;
     Cmd0.region := DEFAULT_REGION defaults;
     Cmd0.logFile := DEFAULT_LOGFILE defaults;
     Cmd0.logFileSize := DEFAULT_LOGFILESIZE defaults;
     Cmd0.noverify := false; Cmd0.nolog := false; Cmd0.debug := false |}.

Definition logger : Logger :=
  TickerLog (DEFAULT_LOGFILE defaults) (DEFAULT_LOGFILESIZE defaults).

(** Two spaces, a tab and a no-break space (U+00A0, two bytes). *)
Definition blank : string :=
  "  " +:+ String (ascii_of_nat 9)
             (String (ascii_of_nat 194) (String (ascii_of_nat 160) "")).

Definition u : IDevice := mkIDevice false.

End Sample.

(* ===================================================================== *)
(** ** Vocabulary of the properties                                       *)
(* ===================================================================== *)

(** The fetch an [execute] performs for [uri], by the URI's scheme, and
    the event it leaves. *)
Definition fetched (W : World) (credentials region uri : string) : result bytes :=
  if GoStrings.HasPrefix uri "s3://"
  then w_fetchS3 W uri credentials region
  else w_fetchHTTP W uri.

Definition fetch_event (credentials region uri : string) : event :=
  if GoStrings.HasPrefix uri "s3://"
  then EvFetchS3 uri credentials region
  else EvFetchHTTP uri.

(** The steps of the pipeline up to and including parsing. *)
Definition upstream (e : event) : bool :=
  match e with
  | EvFetchHTTP _ | EvFetchS3 _ _ _ | EvUntar _ | EvVerify _ _ _ _
  | EvParseTSV _ _ => true
  | _ => false
  end.

(** The steps that come after signature verification: parsing, the
    device state, the diff and its report, the upload. *)
Definition after_verification (e : event) : bool :=
  match e with
  | EvParseTSV _ _ | EvGetACL _ | EvNow | EvCreate _ | EvClose _
  | EvReport _ _ _ _ | EvReport0 _ _ _ | EvWrite _ _ | EvSign _ _
  | EvTargz _ | EvStoreHTTP _ _ | EvStoreS3 _ _ _ _ => true
  | _ => false
  end.

Definition is_verify (e : event) : bool :=
  match e with
  | EvVerify _ _ _ _ => true
  | _ => false
  end.

(** The lines of the log, without the other events. *)
Definition log_lines (evs : list event) : list (string * list arg) :=
  omap (fun e => match e with
                 | EvLog _ format args => Some (format, args)
                 | _ => None
                 end) evs.

(** [emits P m]: whatever the state, [m] causes only events in [P]. *)
Definition emits {A} (P : event -> Prop) (m : M A) : Prop :=
  forall st, Forall P (events (m st)).

(** [respects R m]: every run of [m] takes a state to an [R]-related one. *)
Definition respects {A} (R : relation State) (m : M A) : Prop :=
  forall st, R st (final (m st)).

(** The local file system is as it was. *)
Definition same_files : relation State := fun st st' => fs st' = fs st.

Definition requires_url : error :=
  "compare-acl requires a URL for the authoritative ACL file in the command options".

(** What [untar] extracted from a fetched blob. *)
Definition untar_tsv (W : World) (b : bytes) : bytes := (w_untar W b).1.1.1.

Definition untar_signature (W : World) (b : bytes) : bytes := (w_untar W b).1.1.2.

Definition untar_uname (W : World) (b : bytes) : string := (w_untar W b).1.2.

Definition untar_err (W : World) (b : bytes) : option error := (w_untar W b).2.

(** [W] with an [untar] that extracts the same and never fails. *)
Definition without_untar_error (W : World) : World :=
  {| w_url_Parse := w_url_Parse W;
     w_conf_Load := w_conf_Load W;
     w_getDevices := w_getDevices W;
     w_fetchHTTP := w_fetchHTTP W;
     w_fetchS3 := w_fetchS3 W;
     w_untar := fun b => (untar_tsv W b, untar_signature W b, untar_uname W b, None);
     w_verify := w_verify W;
     w_ParseTSV := w_ParseTSV W;
     w_GetACL := w_GetACL W;
     w_report := w_report W;
     w_report0 := w_report0 W;
     w_sign := w_sign W;
     w_targz := w_targz W;
     w_storeHTTP := w_storeHTTP W;
     w_storeS3 := w_storeS3 W;
     w_os_Create := w_os_Create W;
     w_Now_Format := w_Now_Format W;
     w_filepath_Join := w_filepath_Join W |}.

(** The verdict of [verify] on what [untar] extracted. *)
Definition verdict (W : World) (keysdir : string) (b : bytes) : option error :=
  w_verify W (untar_uname W b) (untar_tsv W b) (untar_signature W b) keysdir.

Definition verify_event (W : World) (keysdir : string) (b : bytes) : event :=
  EvVerify (untar_uname W b) (untar_tsv W b) (untar_signature W b) keysdir.

(** The events of [execute] from its first line to the unpacking. *)
Definition unpacking (W : World) (credentials region uri : string)
    (log : Logger) (b : bytes) : list event :=
  [ EvLog log "Fetching ACL from %v" [AStr uri];
    fetch_event credentials region uri;
    EvLog log "Fetched ACL from %v (%d bytes)" [AStr uri; AInt (len b)];
    EvUntar b;
    EvLog log "Extracted ACL from %v: %v bytes, signature: %v bytes"
          [AStr uri; AInt (len (untar_tsv W b)); AInt (len (untar_signature W b))] ].

(** [c] with its [noverify] field set to [nv]. *)
Definition with_noverify (nv : bool) (c : Cmd.CompareACL) : Cmd.CompareACL :=
  {| Cmd.acl := Cmd.acl c; Cmd.rpt := Cmd.rpt c; Cmd.config := Cmd.config c;
     Cmd.workdir := Cmd.workdir c; Cmd.keysdir := Cmd.keysdir c;
     Cmd.keyfile := Cmd.keyfile c; Cmd.credentials := Cmd.credentials c;
     Cmd.region := Cmd.region c; Cmd.logFile := Cmd.logFile c;
     Cmd.logFileSize := Cmd.logFileSize c; Cmd.template := Cmd.template c;
     Cmd.noverify := nv; Cmd.noreport := Cmd.noreport c;
     Cmd.nolog := Cmd.nolog c; Cmd.debug := Cmd.debug c |}.

(** [c] with another template. *)
Definition with_template (t : string) (c : Cmd.CompareACL) : Cmd.CompareACL :=
  {| Cmd.acl := Cmd.acl c; Cmd.rpt := Cmd.rpt c; Cmd.config := Cmd.config c;
     Cmd.workdir := Cmd.workdir c; Cmd.keysdir := Cmd.keysdir c;
     Cmd.keyfile := Cmd.keyfile c; Cmd.credentials := Cmd.credentials c;
     Cmd.region := Cmd.region c; Cmd.logFile := Cmd.logFile c;
     Cmd.logFileSize := Cmd.logFileSize c; Cmd.template := t;
     Cmd.noverify := Cmd.noverify c; Cmd.noreport := Cmd.noreport c;
     Cmd.nolog := Cmd.nolog c; Cmd.debug := Cmd.debug c |}.

(** [c] with another signing key. *)
Definition with_keyfile (k : string) (c : Cmd.CompareACL) : Cmd.CompareACL :=
  {| Cmd.acl := Cmd.acl c; Cmd.rpt := Cmd.rpt c; Cmd.config := Cmd.config c;
     Cmd.workdir := Cmd.workdir c; Cmd.keysdir := Cmd.keysdir c;
     Cmd.keyfile := k; Cmd.credentials := Cmd.credentials c;
     Cmd.region := Cmd.region c; Cmd.logFile := Cmd.logFile c;
     Cmd.logFileSize := Cmd.logFileSize c; Cmd.template := Cmd.template c;
     Cmd.noverify := Cmd.noverify c; Cmd.noreport := Cmd.noreport c;
     Cmd.nolog := Cmd.nolog c; Cmd.debug := Cmd.debug c |}.

(** A run of [execute] that got as far as unpacking: the run up to there,
    the verification unless it is bypassed, and the rest. *)
Definition unpacked_run (W : World) (credentials region keysdir uri : string)
    (log : Logger) (b : bytes) (noverify : bool) (rest : M unit) (st : State)
    : result unit * State * list event :=
  if noverify then
    (outcome (rest st), final (rest st),
     unpacking W credentials region uri log b ++ events (rest st))
  else
    match verdict W keysdir b with
    | Some e =>
      (Err e, st, unpacking W credentials region uri log b
                  ++ [verify_event W keysdir b])
    | None =>
      (outcome (rest st), final (rest st),
       unpacking W credentials region uri log b
       ++ verify_event W keysdir b :: events (rest st))
    end.

(** Events that are downstream of parsing, or the parsing of [tsv]. *)
Definition downstream_of (tsv : bytes) (e : event) : Prop :=
  upstream e = false \/ exists d, e = EvParseTSV tsv d.

(** The bypass shows in the log: the lines a run logs with [noverify]
    set are not the lines it logs when it verifies. *)
Definition bypass_logged (W : World) (c : Cmd.CompareACL) (u : IDevice)
    (uri : string) (devices : list Device) (log : Logger) (st : State) : Prop :=
  log_lines (events (Cmd.execute W (with_noverify true c) u uri devices log st)) <>
  log_lines (events (Cmd.execute W (with_noverify false c) u uri devices log st)).

(** [m] never returns [nil]. *)
Definition never_ok (m : M unit) : Prop := forall st, outcome (m st) <> Ok tt.

(** The report text that goes into the upload. *)
Definition upload_text (W : World) (c : Cmd.CompareACL) (current list_ : ACL) : string :=
  fst (w_report W current list_ (Cmd.template c) BuilderW).

(** The events of a run of [execute] from its first line to the retrieval
    of the device state, when every step up to there succeeds. *)
Definition retrieval (W : World) (c : Cmd.CompareACL) (uri : string)
    (devices : list Device) (log : Logger) (b : bytes) (list_ : ACL) : list event :=
  unpacking W (Cmd.credentials c) (Cmd.region c) uri log b
  ++ (if Cmd.noverify c then [] else [verify_event W (Cmd.keysdir c) b])
  ++ EvParseTSV (untar_tsv W b) devices
  :: map (fun kl : N * list record =>
            EvLog log "%v  Retrieved %v records" [ADev kl.1; AInt (len kl.2)])
         (map_to_list list_)
  ++ [EvGetACL devices].

(** The last two steps of [execute]: the report and, if asked for, its
    upload. *)
Definition reporting (W : World) (c : Cmd.CompareACL) (current list_ : ACL)
    (log : Logger) : M unit :=
  Cmd.report W c current list_ log ;;;
  (if decide (Cmd.rpt c <> "") then Cmd.upload W c current list_ log else ret tt) ;;;
  ret tt.

(* ===================================================================== *)
(** ** Vocabulary of the further properties                               *)
(* ===================================================================== *)

(** The logger that [Execute] makes from [nolog]. *)
Definition chosen_logger (c : Cmd.CompareACL) : Logger :=
  if negb (Cmd.nolog c)
  then TickerLog (Cmd.logFile c) (Cmd.logFileSize c)
  else StdoutLog "ACL ".

(** An event that, if it is a line of the log, is written to [log]. *)
Definition logs_to (log : Logger) (e : event) : Prop :=
  forall lg format args, e = EvLog lg format args -> lg = log.

Definition is_fetch (e : event) : bool :=
  match e with
  | EvFetchHTTP _ | EvFetchS3 _ _ _ => true
  | _ => false
  end.

(** The calls that only [upload] makes. *)
Definition is_upload (e : event) : bool :=
  match e with
  | EvSign _ _ | EvTargz _ | EvStoreHTTP _ _ | EvStoreS3 _ _ _ _ => true
  | _ => false
  end.

Definition is_store (e : event) : bool :=
  match e with
  | EvStoreHTTP _ _ | EvStoreS3 _ _ _ _ => true
  | _ => false
  end.

(** The store an [upload] performs for [c.rpt], by the URL's scheme, and
    the event it leaves. *)
Definition stored (W : World) (c : Cmd.CompareACL) (b : bytes) : option error :=
  if GoStrings.HasPrefix (Cmd.rpt c) "s3://"
  then w_storeS3 W (Cmd.rpt c) (Cmd.credentials c) (Cmd.region c) b
  else w_storeHTTP W (Cmd.rpt c) b.

Definition store_event (c : Cmd.CompareACL) (b : bytes) : event :=
  if GoStrings.HasPrefix (Cmd.rpt c) "s3://"
  then EvStoreS3 (Cmd.rpt c) (Cmd.credentials c) (Cmd.region c) b
  else EvStoreHTTP (Cmd.rpt c) b.

(** The command of the earlier revision with the same settings. *)
Definition to_cmd0 (c : Cmd.CompareACL) : Cmd0.CompareACL :=
  {| Cmd0.url := Cmd.acl c; Cmd0.config := Cmd.config c;
     Cmd0.workdir := Cmd.workdir c; Cmd0.keysdir := Cmd.keysdir c;
     Cmd0.credentials := Cmd.credentials c; Cmd0.region := Cmd.region c;
     Cmd0.logFile := Cmd.logFile c; Cmd0.logFileSize := Cmd.logFileSize c;
     Cmd0.noverify := Cmd.noverify c; Cmd0.nolog := Cmd.nolog c;
     Cmd0.debug := Cmd.debug c |}.

(** The two errors that [Execute] wraps. *)
Definition invalid_url (rawurl err : string) : error :=
  "Invalid ACL file URL '" +:+ rawurl +:+ "' (" +:+ err +:+ ")".

Definition config_unreadable (err : string) : error :=
  "WARN  Could not load configuration (" +:+ err +:+ ")".

(** The name of a report, from the clock's [n]-th reading, and the local
    report file of that name. *)
Definition report_name (W : World) (n : nat) : string :=
  w_Now_Format W n "acl-2006-01-02T150405.rpt".

Definition report_file (W : World) (c : Cmd.CompareACL) (n : nat) : string :=
  w_filepath_Join W (Cmd.workdir c) (report_name W n).

(** What the renderer writes into the local report file. *)
Definition file_text (W : World) (c : Cmd.CompareACL) (current list_ : ACL)
    (n : nat) : string :=
  fst (w_report W current list_ (Cmd.template c) (FileW (report_file W c n))).

(** The events of the report step that writes a file, from its first
    line to the closing of the file. *)
Definition file_report_events (W : World) (c : Cmd.CompareACL)
    (current list_ : ACL) (log : Logger) (n : nat) : list event :=
  [ EvLog log "Generating ACL 'diff' report" [];
    EvNow;
    EvCreate (report_file W c n);
    EvLog log "Writing 'diff' report to %v" [AStr (report_file W c n)];
    EvReport current list_ (Cmd.template c) (FileW (report_file W c n));
    EvWrite (FileW (report_file W c n)) (file_text W c current list_ n);
    EvClose (report_file W c n) ].

(** The events of an upload in which every step succeeds: [signature] is
    what [sign] returned and [b] what [targz] returned. *)
Definition upload_events (W : World) (c : Cmd.CompareACL) (current list_ : ACL)
    (log : Logger) (n : nat) (signature b : bytes) : list event :=
  let rpt_ := list_byte_of_string (upload_text W c current list_) in
  [ EvLog log "Uploading ACL 'diff' report" [];
    EvReport current list_ (Cmd.template c) BuilderW;
    EvWrite BuilderW (upload_text W c current list_);
    EvNow;
    EvSign rpt_ (Cmd.keyfile c);
    EvTargz [mkFile (report_name W n) rpt_; mkFile "signature" signature];
    EvLog log "tar'd report (%v bytes) and signature (%v bytes): %v bytes"
          [AInt (len rpt_); AInt (len signature); AInt (len b)];
    store_event c b;
    EvLog log "Uploaded to %v" [AStr (Cmd.rpt c)] ].

(** The events of the earlier revision from its first line to the
    retrieval of the device state. *)
Definition retrieval0 (W : World) (c : Cmd0.CompareACL) (uri : string)
    (devices : list Device) (log : Logger) (b : bytes) (list_ : ACL) : list event :=
  unpacking W (Cmd0.credentials c) (Cmd0.region c) uri log b
  ++ (if Cmd0.noverify c then [] else [verify_event W (Cmd0.keysdir c) b])
  ++ EvParseTSV (untar_tsv W b) devices
  :: map (fun kl : N * list record =>
            EvLog log "%v  Retrieved %v records" [ADev kl.1; AInt (len kl.2)])
         (map_to_list list_)
  ++ [EvGetACL devices].

(** The events of a run up to a parse that fails. *)
Definition parsing (W : World) (credentials region keysdir uri : string)
    (noverify : bool) (devices : list Device) (log : Logger) (b : bytes)
    : list event :=
  unpacking W credentials region uri log b
  ++ (if noverify then [] else [verify_event W keysdir b])
  ++ [EvParseTSV (untar_tsv W b) devices].

(** The events of a run up to the retrieval of the device state, by the
    settings that matter. *)
Definition retrieving (W : World) (credentials region keysdir uri : string)
    (noverify : bool) (devices : list Device) (log : Logger) (b : bytes)
    (list_ : ACL) : list event :=
  parsing W credentials region keysdir uri noverify devices log b
  ++ map (fun kl : N * list record =>
            EvLog log "%v  Retrieved %v records" [ADev kl.1; AInt (len kl.2)])
         (map_to_list list_)
  ++ [EvGetACL devices].

(** The first of the steps before the report that fails, in the order in
    which [execute] takes them (the fetch, the verification unless it is
    bypassed, the parsing, the device state), with the events up to it;
    [None] when none of them fails. *)
Definition early_exit (W : World) (credentials region keysdir : string)
    (noverify : bool) (u : IDevice) (uri : string) (devices : list Device)
    (log : Logger) : option (error * list event) :=
  match fetched W credentials region uri with
  | Err e =>
    Some (e, [EvLog log "Fetching ACL from %v" [AStr uri];
              fetch_event credentials region uri])
  | Ok b =>
    match (if noverify then None else verdict W keysdir b) with
    | Some e =>
      Some (e, unpacking W credentials region uri log b
               ++ [verify_event W keysdir b])
    | None =>
      match w_ParseTSV W (untar_tsv W b) devices with
      | Err e =>
        Some (e, parsing W credentials region keysdir uri noverify devices log b)
      | Ok list_ =>
        match w_GetACL W u devices with
        | Err e =>
          Some (e, retrieving W credentials region keysdir uri noverify
                     devices log b list_)
        | Ok _ => None
        end
      end
    end
  end.

(** The first step of [upload] that fails, in the order in which it
    takes them (the rendering, the signing, the archiving, the store),
    with the events up to it; [None] when none of them fails. [n] is the
    reading of the clock that names the report in the archive. *)
Definition upload_exit (W : World) (c : Cmd.CompareACL) (current list_ : ACL)
    (log : Logger) (n : nat) : option (error * list event) :=
  let text := upload_text W c current list_ in
  let rpt_ := list_byte_of_string text in
  let rendered :=
    [ EvLog log "Uploading ACL 'diff' report" [];
      EvReport current list_ (Cmd.template c) BuilderW;
      EvWrite BuilderW text ] in
  match snd (w_report W current list_ (Cmd.template c) BuilderW) with
  | Some e => Some (e, rendered)
  | None =>
    match w_sign W rpt_ (Cmd.keyfile c) with
    | Err e => Some (e, rendered ++ [EvNow; EvSign rpt_ (Cmd.keyfile c)])
    | Ok signature =>
      let files := [mkFile (report_name W n) rpt_; mkFile "signature" signature] in
      match w_targz W files with
      | Err e =>
        Some (e, rendered ++ [EvNow; EvSign rpt_ (Cmd.keyfile c); EvTargz files])
      | Ok b =>
        match stored W c b with
        | Some e =>
          Some (e, rendered
                   ++ [ EvNow; EvSign rpt_ (Cmd.keyfile c); EvTargz files;
                        EvLog log "tar'd report (%v bytes) and signature (%v bytes): %v bytes"
                              [AInt (len rpt_); AInt (len signature); AInt (len b)];
                        store_event c b ])
        | None => None
        end
      end
    end
  end.

(** The devices of a rendered report, in the order in which the report
    lists them: the values printed right after a [DEVICE] header. *)
Fixpoint devices_of (cs : list Template.chunk) : list string :=
  match cs with
  | [] => []
  | Template.Text h :: rest =>
    match rest with
    | Template.Value v :: _ =>
      if decide (h = Template.device_hdr) then v :: devices_of rest
      else devices_of rest
    | _ => devices_of rest
    end
  | Template.Value _ :: rest => devices_of rest
  end.

(** What goes wrong in the report step, if anything: nothing when the
    report goes to stdout; otherwise the error of [os.Create] or, with
    the file created, the error of the rendering. [n] is the reading of
    the clock that names the file. *)
Definition report_fault (W : World) (c : Cmd.CompareACL) (current list_ : ACL)
    (n : nat) : option error :=
  if Cmd.noreport c then None
  else match w_os_Create W (report_file W c n) with
       | Some e => Some e
       | None =>
         snd (w_report W current list_ (Cmd.template c) (FileW (report_file W c n)))
       end.

(** The reading of the clock that names the uploaded report: the report
    step has read the clock once if it wrote a file. *)
Definition upload_tick (c : Cmd.CompareACL) (n : nat) : nat :=
  if Cmd.noreport c then n else S n.

(** The concrete installation with one collaborator out of order. *)
Inductive fault :=
| BadURL | BadConfig | DeviceOffline | ReadOnlyDisk | TarFails | StoreFails.

Definition faulty (f : fault) : World :=
  {| w_url_Parse := fun rawurl =>
       match f with
       | BadURL => Err "missing protocol scheme"
       | _ => w_url_Parse Sample.world rawurl
       end;
     w_conf_Load := fun path =>
       match f with
       | BadConfig => Err ("open " +:+ path +:+ ": no such file or directory")
       | _ => w_conf_Load Sample.world path
       end;
     w_getDevices := w_getDevices Sample.world;
     w_fetchHTTP := w_fetchHTTP Sample.world;
     w_fetchS3 := w_fetchS3 Sample.world;
     w_untar := w_untar Sample.world;
     w_verify := w_verify Sample.world;
     w_ParseTSV := w_ParseTSV Sample.world;
     w_GetACL := fun u devices =>
       match f with
       | DeviceOffline => Err "timeout waiting for reply"
       | _ => w_GetACL Sample.world u devices
       end;
     w_report := w_report Sample.world;
     w_report0 := w_report0 Sample.world;
     w_sign := w_sign Sample.world;
     w_targz := fun files =>
       match f with
       | TarFails => Err "archive/tar: write too long"
       | _ => w_targz Sample.world files
       end;
     w_storeHTTP := fun url b =>
       match f with
       | StoreFails => Some "403 Forbidden"
       | _ => w_storeHTTP Sample.world url b
       end;
     w_storeS3 := fun url credentials region b =>
       match f with
       | StoreFails => Some "AccessDenied"
       | _ => w_storeS3 Sample.world url credentials region b
       end;
     w_os_Create := fun file =>
       match f with
       | ReadOnlyDisk => Some ("open " +:+ file +:+ ": read-only file system")
       | _ => w_os_Create Sample.world file
       end;
     w_Now_Format := w_Now_Format Sample.world;
     w_filepath_Join := w_filepath_Join Sample.world |}.

(* ===================================================================== *)
(** ** Reasoning about runs                                               *)
(* ===================================================================== *)

Lemma bind_outcome {A B} (m : M A) (k : A -> M B) st :
  outcome (bind m k st) =
  match outcome (m st) with
  | Ok a => outcome (k a (final (m st)))
  | Err e => Err e
  end.
Proof. unfold bind. by destruct (m st) as [[[a|e] st'] evs]. Qed.

Lemma bind_final {A B} (m : M A) (k : A -> M B) st :
  final (bind m k st) =
  match outcome (m st) with
  | Ok a => final (k a (final (m st)))
  | Err e => final (m st)
  end.
Proof. unfold bind. by destruct (m st) as [[[a|e] st'] evs]. Qed.

Lemma bind_events {A B} (m : M A) (k : A -> M B) st :
  events (bind m k st) =
  events (m st) ++
  match outcome (m st) with
  | Ok a => events (k a (final (m st)))
  | Err e => []
  end.
Proof.
  unfold bind. destruct (m st) as [[[a|e] st'] evs]; [done|].
  unfold events. simpl. by rewrite app_nil_r.
Qed.

(** *** Events *)
Section Emits.
Variable P : event -> Prop.

Lemma emits_ret {A} (a : A) : emits P (ret a).
Proof. intros st. constructor. Qed.

Lemma emits_fail {A} e : emits P (@fail A e).
Proof. intros st. constructor. Qed.

Lemma emits_bind {A B} (m : M A) (k : A -> M B) :
  emits P m -> (forall a, emits P (k a)) -> emits P (bind m k).
Proof.
  intros Hm Hk st. rewrite bind_events. apply Forall_app. split; [apply Hm|].
  destruct (outcome (m st)); [apply Hk | constructor].
Qed.

Lemma emits_unchecked {A} (m : M A) : emits P m -> emits P (unchecked m).
Proof. intros Hm st. apply Hm. Qed.

Lemma emits_wrap {A} f (m : M A) : emits P m -> emits P (wrap f m).
Proof.
  intros Hm st. specialize (Hm st). unfold wrap.
  by destruct (m st) as [[[a|e] st'] evs].
Qed.

Lemma emits_defer {A} (d : M unit) (m : M A) :
  emits P d -> emits P m -> emits P (defer d m).
Proof.
  intros Hd Hm st. unfold defer, events. simpl.
  apply Forall_app. split; [apply Hm | apply Hd].
Qed.

Lemma emits_for_each {A} (xs : list A) (body : A -> M unit) :
  (forall x, emits P (body x)) -> emits P (for_each xs body).
Proof.
  intros Hb. induction xs as [|x xs IH]; simpl.
  - apply emits_ret.
  - apply emits_bind; [apply Hb | intros _; exact IH].
Qed.

Lemma emits_if {A} (b : bool) (m1 m2 : M A) :
  emits P m1 -> emits P m2 -> emits P (if b then m1 else m2).
Proof. by destruct b. Qed.

Lemma emits_decide {A} (Q : Prop) `{!Decision Q} (m1 m2 : M A) :
  emits P m1 -> emits P m2 -> emits P (if decide Q then m1 else m2).
Proof. by destruct (decide Q). Qed.

Lemma emits_emit e : P e -> emits P (emit e).
Proof. intros He st. by repeat constructor. Qed.

Lemma emits_call {A} e (r : result A) : P e -> emits P (call e r).
Proof. intros He st. by repeat constructor. Qed.

Lemma emits_Printf lg format args :
  P (EvLog lg format args) -> emits P (Printf lg format args).
Proof. apply emits_emit. Qed.

Lemma emits_write w text : P (EvWrite w text) -> emits P (write w text).
Proof. intros He st. by repeat constructor. Qed.

Lemma emits_new_builder : emits P new_builder.
Proof. intros st. constructor. Qed.

Lemma emits_builder_String : emits P builder_String.
Proof. intros st. constructor. Qed.

Lemma emits_Now_Format W layout : P EvNow -> emits P (Now_Format W layout).
Proof. intros He st. by repeat constructor. Qed.

Lemma emits_os_Create W file : P (EvCreate file) -> emits P (os_Create W file).
Proof.
  intros He st. unfold os_Create.
  destruct (w_os_Create W file); by repeat constructor.
Qed.

Lemma emits_Close w : (forall name, P (EvClose name)) -> emits P (Close w).
Proof.
  intros He. destruct w; simpl; try apply emits_ret. apply emits_emit, He.
Qed.

Lemma emits_pkg_report W current list_ template w :
  P (EvReport current list_ template w) ->
  (forall text, P (EvWrite w text)) ->
  emits P (pkg_report W current list_ template w).
Proof.
  intros H1 H2. unfold pkg_report.
  apply emits_bind; [by apply emits_emit | intros _].
  apply emits_bind; [by apply emits_write | intros _].
  intros st. constructor.
Qed.

Lemma emits_pkg_report0 W current list_ workdir log :
  P (EvReport0 current list_ workdir) ->
  emits P (pkg_report0 W current list_ workdir log).
Proof. intros He st. by repeat constructor. Qed.
End Emits.

(** The report and upload steps stay downstream of parsing. *)
Lemma emits_report (P : event -> Prop) W c current list_ log :
  (forall e, upstream e = false -> P e) ->
  emits P (Cmd.report W c current list_ log).
Proof.
  intros HP. unfold Cmd.report.
  apply emits_bind; [apply emits_Printf; by apply HP | intros _].
  destruct (Cmd.noreport c).
  - apply emits_bind; [|intros; apply emits_ret].
    apply emits_unchecked, emits_pkg_report; intros; by apply HP.
  - apply emits_bind; [apply emits_Now_Format; by apply HP | intros filename].
    apply emits_bind; [apply emits_os_Create; by apply HP | intros f].
    apply emits_defer; [apply emits_Close; intros; by apply HP|].
    apply emits_bind; [apply emits_Printf; by apply HP | intros _].
    apply emits_pkg_report; intros; by apply HP.
Qed.

Lemma emits_upload (P : event -> Prop) W c current list_ log :
  (forall e, upstream e = false -> P e) ->
  emits P (Cmd.upload W c current list_ log).
Proof.
  intros HP. unfold Cmd.upload, Cmd.storeS3, Cmd.storeHTTP.
  repeat (first [ apply emits_Printf | apply emits_new_builder
                | apply emits_pkg_report | apply emits_Now_Format
                | apply emits_builder_String | apply emits_call
                | apply emits_ret
                | apply emits_bind; [|intros ?] ]);
    intros; try by apply HP.
  destruct (GoStrings.HasPrefix _ _); apply emits_call; by apply HP.
Qed.

(* ===================================================================== *)
(** ** The model at work                                                  *)
(* ===================================================================== *)

Example TrimSpace_examples :
  GoStrings.TrimSpace "  http://acl.example.com/a b  " = "http://acl.example.com/a b" /\
  GoStrings.TrimSpace Sample.blank = "" /\
  GoStrings.TrimSpace ("x" +:+ Sample.blank) = "x" /\
  GoStrings.whitespace_only "" = true /\
  GoStrings.whitespace_only Sample.blank = true /\
  GoStrings.whitespace_only " x " = false.
Proof. repeat split; reflexivity. Qed.

(** The text nodes and actions of the template: [render] and
    [render_device] follow them one by one. *)
Example template_tokens :
  Template.tokens =
  [ Template.TText Template.title; Template.TAction " .DateTime ";
    Template.TText Template.nl;
    Template.TAction "range $id,$value := .Diffs";
    Template.TText Template.device_hdr; Template.TAction " $id ";
    Template.TAction "if $value.Unchanged";
    Template.TText Template.incorrect_hdr;
    Template.TAction "range $value.Updated"; Template.TAction ".";
    Template.TText Template.item_sep;
    Template.TAction "end"; Template.TAction "end";
    Template.TAction "if $value.Added";
    Template.TText Template.missing_hdr;
    Template.TAction "range $value.Added"; Template.TAction ".";
    Template.TText Template.item_sep;
    Template.TAction "end"; Template.TAction "end";
    Template.TAction "if $value.Deleted";
    Template.TText Template.unexpected_hdr;
    Template.TAction "range $value.Deleted"; Template.TAction ".";
    Template.TText Template.item_sep;
    Template.TAction "end"; Template.TAction "end"; Template.TAction "end";
    Template.TText Template.nl ].
Proof. reflexivity. Qed.

(** The scenario of section 8 of the specification. *)
Example diff_scenario :
  DiffEngine.diff Sample.current Sample.authoritative !! Sample.controller =
  Some {| Unchanged := [];
          Updated := [(mkRecord 1001 (Sample.door "doorB"),
                       mkRecord 1001 (Sample.door "doorA"))];
          Added := [];
          Deleted := [mkRecord 1002 (Sample.door "doorA")] |}.
Proof. vm_compute. reflexivity. Qed.

(** A whole run in the concrete installation: the report file is the
    only file, and it holds the rendered diff of the scenario. *)
Example Execute_sample :
  let r := Cmd.Execute Sample.world (Sample.cmd Sample.good_url "" false)
             (initial ∅) in
  outcome r = Ok tt /\
  fs (final r) =
    {[ "/var/uhppoted/acl-2020-08-14T120000.rpt" :=
         "ACL DIFF REPORT 2020-08-14 12:00:00" +:+ Template.nl
         +:+ Template.device_hdr +:+ "405419896"
         +:+ Template.unexpected_hdr +:+ "1002" +:+ Template.item_sep
         +:+ Template.nl ]}.
Proof. cbv zeta. split; vm_compute; reflexivity. Qed.

(* ===================================================================== *)
(** ** The guard of [Execute]                                             *)
(* ===================================================================== *)

Lemma indexFunc_aux_all rs f i :
  forallb (fun rw => f (fst rw)) rs = true ->
  GoStrings.indexFunc_aux rs f false i = None.
Proof.
  revert i. induction rs as [|[r w] rs IH]; intros i H; simpl in *; [done|].
  apply andb_prop in H as [Hr Hrs]. rewrite Hr. simpl. by apply IH.
Qed.

(** A string of white space is trimmed to nothing. *)
Lemma TrimSpace_whitespace s :
  GoStrings.whitespace_only s = true -> GoStrings.TrimSpace s = "".
Proof.
  unfold GoStrings.whitespace_only, GoStrings.TrimSpace, GoStrings.TrimFunc.
  intros H. unfold GoStrings.TrimLeftFunc, GoStrings.indexFunc.
  by rewrite indexFunc_aux_all.
Qed.

(** C10: when the URL of the authoritative ACL is empty or made of white
    space only, [Execute] returns its error at once: the state is the one
    it started in and no call was made (no URL parsing, no configuration,
    no fetch, no unpacking, no device access, no report). This holds for
    the command and for its earlier revision. *)
Theorem Execute_requires_url (W : World) (c : Cmd.CompareACL)
    (c0 : Cmd0.CompareACL) (st : State) :
  (GoStrings.whitespace_only (Cmd.acl c) = true ->
   Cmd.Execute W c st = (Err requires_url, st, [])) /\
  (GoStrings.whitespace_only (Cmd0.url c0) = true ->
   Cmd0.Execute W c0 st = (Err requires_url, st, [])).
Proof.
  split; intros H; apply TrimSpace_whitespace in H.
  - unfold Cmd.Execute. by rewrite decide_True.
  - unfold Cmd0.Execute. by rewrite decide_True.
Qed.

(* ===================================================================== *)
(** ** The steps of [execute]                                             *)
(* ===================================================================== *)

Lemma bind_run {A B} (m : M A) (k : A -> M B) st a st' evs :
  m st = (Ok a, st', evs) ->
  bind m k st = (outcome (k a st'), final (k a st'), evs ++ events (k a st')).
Proof. intros H. unfold bind. by rewrite H. Qed.

Lemma bind_stop {A B} (m : M A) (k : A -> M B) st e st' evs :
  m st = (Err e, st', evs) -> bind m k st = (Err e, st', evs).
Proof. intros H. unfold bind. by rewrite H. Qed.

Lemma run_eta {A} (r : result A * State * list event) :
  r = (outcome r, final r, events r).
Proof. by destruct r as [[? ?] ?]. Qed.

Lemma fetch_step W c uri log st b :
  fetched W (Cmd.credentials c) (Cmd.region c) uri = Ok b ->
  (if GoStrings.HasPrefix uri "s3://" then Cmd.fetchS3 W c else Cmd.fetchHTTP W)
    uri log st =
  (Ok b, st, [fetch_event (Cmd.credentials c) (Cmd.region c) uri;
              EvLog log "Fetched ACL from %v (%d bytes)" [AStr uri; AInt (len b)]]).
Proof.
  unfold fetched, fetch_event. intros H.
  destruct (GoStrings.HasPrefix uri "s3://");
    unfold Cmd.fetchS3, Cmd.fetchHTTP, bind, call; rewrite H; reflexivity.
Qed.

Lemma fetch_step0 W c uri log st b :
  fetched W (Cmd0.credentials c) (Cmd0.region c) uri = Ok b ->
  (if GoStrings.HasPrefix uri "s3://" then Cmd0.fetchS3 W c else Cmd0.fetchHTTP W)
    uri log st =
  (Ok b, st, [fetch_event (Cmd0.credentials c) (Cmd0.region c) uri;
              EvLog log "Fetched ACL from %v (%d bytes)" [AStr uri; AInt (len b)]]).
Proof.
  unfold fetched, fetch_event. intros H.
  destruct (GoStrings.HasPrefix uri "s3://");
    unfold Cmd0.fetchS3, Cmd0.fetchHTTP, bind, call; rewrite H; reflexivity.
Qed.

Lemma with_noverify_id c : with_noverify (Cmd.noverify c) c = c.
Proof. by destruct c. Qed.

(** [execute] after a successful fetch is an [unpacked_run]; its rest is
    the same whether verification is bypassed or not. *)
Lemma execute_unpacked W c u uri devices log b :
  fetched W (Cmd.credentials c) (Cmd.region c) uri = Ok b ->
  exists rest : M unit,
    emits (downstream_of (untar_tsv W b)) rest /\
    forall nv st,
      Cmd.execute W (with_noverify nv c) u uri devices log st =
      unpacked_run W (Cmd.credentials c) (Cmd.region c) (Cmd.keysdir c)
                   uri log b nv rest st.
Proof.
  intros Hf. unfold unpacked_run, Cmd.execute, verdict, verify_event, unpacking,
    untar_tsv, untar_signature, untar_uname.
  destruct (w_untar W b) as [[[tsv sg] un] er] eqn:Hu. simpl.
  eexists. split; cycle 1.
  - intros nv st.
    erewrite bind_run by reflexivity. cbv beta zeta.
    erewrite bind_run by (by apply fetch_step). cbv beta.
    erewrite bind_run by reflexivity. cbv beta. rewrite Hu.
    erewrite bind_run by reflexivity. cbv beta.
    destruct nv; simpl negb; cbv iota.
    + erewrite bind_run by reflexivity.
      cbn [outcome final events fst snd app]. reflexivity.
    + unfold call at 1, of_error at 1.
      destruct (w_verify W un tsv sg (Cmd.keysdir c)) as [e|].
      * erewrite bind_stop by reflexivity. reflexivity.
      * erewrite bind_run by reflexivity.
        cbn [outcome final events fst snd app]. reflexivity.
  - apply emits_bind; [apply emits_call; right; eauto | intros list_].
    apply emits_bind; [apply emits_for_each; intros; apply emits_Printf; by left | intros _].
    apply emits_bind; [apply emits_call; by left | intros current].
    apply emits_bind; [apply emits_report; by left | intros _].
    apply emits_bind; [|intros; apply emits_ret].
    apply emits_decide; [apply emits_upload; by left | apply emits_ret].
Qed.

(** The same for the earlier revision. *)
Lemma execute0_unpacked W c u uri devices log b :
  fetched W (Cmd0.credentials c) (Cmd0.region c) uri = Ok b ->
  exists rest : M unit,
    emits (downstream_of (untar_tsv W b)) rest /\
    forall st,
      Cmd0.execute W c u uri devices log st =
      unpacked_run W (Cmd0.credentials c) (Cmd0.region c) (Cmd0.keysdir c)
                   uri log b (Cmd0.noverify c) rest st.
Proof.
  intros Hf. unfold unpacked_run, Cmd0.execute, verdict, verify_event, unpacking,
    untar_tsv, untar_signature, untar_uname.
  destruct (w_untar W b) as [[[tsv sg] un] er] eqn:Hu. simpl.
  eexists. split; cycle 1.
  - intros st.
    erewrite bind_run by reflexivity. cbv beta zeta.
    erewrite bind_run by (by apply fetch_step0). cbv beta.
    erewrite bind_run by reflexivity. cbv beta. rewrite Hu.
    erewrite bind_run by reflexivity. cbv beta.
    destruct (Cmd0.noverify c); simpl negb; cbv iota.
    + erewrite bind_run by reflexivity.
      cbn [outcome final events fst snd app]. reflexivity.
    + unfold call at 1, of_error at 1.
      destruct (w_verify W un tsv sg (Cmd0.keysdir c)) as [e|].
      * erewrite bind_stop by reflexivity. reflexivity.
      * erewrite bind_run by reflexivity.
        cbn [outcome final events fst snd app]. reflexivity.
  - apply emits_bind; [apply emits_call; right; eauto | intros list_].
    apply emits_bind; [apply emits_for_each; intros; apply emits_Printf; by left | intros _].
    apply emits_bind; [apply emits_call; by left | intros current].
    apply emits_bind; [apply emits_pkg_report0; by left | intros _].
    apply emits_fail.
Qed.

(* ===================================================================== *)
(** ** Signature verification                                             *)
(* ===================================================================== *)

Lemma unpacking_before_verification W credentials region uri log b :
  Forall (fun ev => after_verification ev = false /\ is_verify ev = false)
         (unpacking W credentials region uri log b).
Proof.
  unfold unpacking, fetch_event.
  destruct (GoStrings.HasPrefix uri "s3://"); repeat constructor.
Qed.

Lemma unpacked_verify_fails W credentials region keysdir uri log b rest st e :
  verdict W keysdir b = Some e ->
  let r := unpacked_run W credentials region keysdir uri log b false rest st in
  outcome r = Err e /\ final r = st /\
  events r = unpacking W credentials region uri log b ++ [verify_event W keysdir b] /\
  Forall (fun ev => after_verification ev = false) (events r).
Proof.
  intros Hv. unfold unpacked_run. rewrite Hv.
  cbn [outcome final events fst snd]. split_and!; try done.
  apply Forall_app. split.
  - eapply Forall_impl; [apply unpacking_before_verification|]. by intros ev [? _].
  - by repeat constructor.
Qed.

(** C1: with verification enabled ([noverify] not set), when [verify]
    rejects the triple that [untar] extracted, [execute] returns that
    error, leaves the state (files, stdout) as it found it, and its last
    call is the verification: nothing was parsed, no device state was
    retrieved, no report was rendered and no file was created. This holds
    for the command and for its earlier revision. *)
Theorem verification_failure_aborts (W : World) (u : IDevice) (uri : string)
    (devices : list Device) (log : Logger) (st : State) (b : bytes) (e : error)
    (c : Cmd.CompareACL) (c0 : Cmd0.CompareACL) :
  (fetched W (Cmd.credentials c) (Cmd.region c) uri = Ok b ->
   Cmd.noverify c = false ->
   verdict W (Cmd.keysdir c) b = Some e ->
   let r := Cmd.execute W c u uri devices log st in
   outcome r = Err e /\ final r = st /\
   events r = unpacking W (Cmd.credentials c) (Cmd.region c) uri log b
              ++ [verify_event W (Cmd.keysdir c) b] /\
   Forall (fun ev => after_verification ev = false) (events r)) /\
  (fetched W (Cmd0.credentials c0) (Cmd0.region c0) uri = Ok b ->
   Cmd0.noverify c0 = false ->
   verdict W (Cmd0.keysdir c0) b = Some e ->
   let r := Cmd0.execute W c0 u uri devices log st in
   outcome r = Err e /\ final r = st /\
   events r = unpacking W (Cmd0.credentials c0) (Cmd0.region c0) uri log b
              ++ [verify_event W (Cmd0.keysdir c0) b] /\
   Forall (fun ev => after_verification ev = false) (events r)).
Proof.
  split; intros Hf Hn Hv.
  - destruct (execute_unpacked W c u uri devices log b Hf) as (rest & _ & Hrun).
    specialize (Hrun false st). rewrite <- Hn, with_noverify_id in Hrun.
    rewrite Hrun, Hn. by apply unpacked_verify_fails.
  - destruct (execute0_unpacked W c0 u uri devices log b Hf) as (rest & _ & Hrun).
    rewrite Hrun, Hn. by apply unpacked_verify_fails.
Qed.

Lemma verification_failure_aborts_tampered :
  let r := Cmd.execute Sample.world (Sample.cmd Sample.tampered_url "" false)
             Sample.u Sample.tampered_url [Sample.controller] Sample.logger
             (initial ∅) in
  outcome r = Err "crypto/rsa: verification error" /\ final r = initial ∅ /\
  events r = unpacking Sample.world (DEFAULT_CREDENTIALS Sample.defaults)
               (DEFAULT_REGION Sample.defaults) Sample.tampered_url Sample.logger
               Sample.tampered
             ++ [verify_event Sample.world (DEFAULT_KEYSDIR Sample.defaults)
                   Sample.tampered] /\
  Forall (fun ev => after_verification ev = false) (events r).
Proof.
  apply (proj1 (verification_failure_aborts Sample.world Sample.u
                  Sample.tampered_url [Sample.controller] Sample.logger
                  (initial ∅) Sample.tampered "crypto/rsa: verification error"
                  (Sample.cmd Sample.tampered_url "" false)
                  (Sample.cmd0 Sample.tampered_url))); reflexivity.
Defined.

Lemma unpacked_verified W credentials region keysdir uri log b rest st :
  emits (downstream_of (untar_tsv W b)) rest ->
  exists post,
    events (unpacked_run W credentials region keysdir uri log b false rest st) =
      unpacking W credentials region uri log b
      ++ verify_event W keysdir b :: post /\
    forall tsv d, EvParseTSV tsv d ∈ post -> tsv = untar_tsv W b.
Proof.
  intros Hrest. unfold unpacked_run.
  destruct (verdict W keysdir b) as [e|].
  - exists []. split; [done|]. intros tsv d H. by apply elem_of_nil in H.
  - exists (events (rest st)). split; [done|]. intros tsv d H.
    specialize (Hrest st). rewrite Forall_forall in Hrest.
    destruct (Hrest _ H) as [Hup | [d' Heq]]; [done | congruence].
Qed.

(** C7: with verification enabled, [verify] is called with the signer,
    the payload and the signature exactly as [untar] returned them: between
    the two calls there is only a line of the log. No parsing comes before
    the verification, and any parsing that follows it is given the same
    payload bytes. This holds for the command and for its earlier
    revision. *)
Theorem verification_on_extracted_bytes (W : World) (u : IDevice) (uri : string)
    (devices : list Device) (log : Logger) (st : State) (b : bytes)
    (c : Cmd.CompareACL) (c0 : Cmd0.CompareACL) :
  (fetched W (Cmd.credentials c) (Cmd.region c) uri = Ok b ->
   Cmd.noverify c = false ->
   exists pre post,
     events (Cmd.execute W c u uri devices log st) =
       pre ++ [EvUntar b;
               EvLog log "Extracted ACL from %v: %v bytes, signature: %v bytes"
                 [AStr uri; AInt (len (untar_tsv W b)); AInt (len (untar_signature W b))];
               EvVerify (untar_uname W b) (untar_tsv W b) (untar_signature W b)
                        (Cmd.keysdir c)] ++ post /\
     Forall (fun ev => after_verification ev = false) pre /\
     forall tsv d, EvParseTSV tsv d ∈ post -> tsv = untar_tsv W b) /\
  (fetched W (Cmd0.credentials c0) (Cmd0.region c0) uri = Ok b ->
   Cmd0.noverify c0 = false ->
   exists pre post,
     events (Cmd0.execute W c0 u uri devices log st) =
       pre ++ [EvUntar b;
               EvLog log "Extracted ACL from %v: %v bytes, signature: %v bytes"
                 [AStr uri; AInt (len (untar_tsv W b)); AInt (len (untar_signature W b))];
               EvVerify (untar_uname W b) (untar_tsv W b) (untar_signature W b)
                        (Cmd0.keysdir c0)] ++ post /\
     Forall (fun ev => after_verification ev = false) pre /\
     forall tsv d, EvParseTSV tsv d ∈ post -> tsv = untar_tsv W b).
Proof.
  split; intros Hf Hn.
  - destruct (execute_unpacked W c u uri devices log b Hf) as (rest & Hrest & Hrun).
    specialize (Hrun false st). rewrite <- Hn, with_noverify_id in Hrun.
    rewrite Hrun, Hn.
    destruct (unpacked_verified W (Cmd.credentials c) (Cmd.region c)
                (Cmd.keysdir c) uri log b rest st Hrest) as (post & Hev & Hpost).
    exists (take 3 (unpacking W (Cmd.credentials c) (Cmd.region c) uri log b)), post.
    split; [|split; [|exact Hpost]].
    + by rewrite Hev.
    + unfold unpacking, fetch_event. cbn [take].
      destruct (GoStrings.HasPrefix uri "s3://"); by repeat constructor.
  - destruct (execute0_unpacked W c0 u uri devices log b Hf) as (rest & Hrest & Hrun).
    rewrite Hrun, Hn.
    destruct (unpacked_verified W (Cmd0.credentials c0) (Cmd0.region c0)
                (Cmd0.keysdir c0) uri log b rest st Hrest) as (post & Hev & Hpost).
    exists (take 3 (unpacking W (Cmd0.credentials c0) (Cmd0.region c0) uri log b)), post.
    split; [|split; [|exact Hpost]].
    + by rewrite Hev.
    + unfold unpacking, fetch_event. cbn [take].
      destruct (GoStrings.HasPrefix uri "s3://"); by repeat constructor.
Qed.

Lemma log_lines_app evs1 evs2 :
  log_lines (evs1 ++ evs2) = log_lines evs1 ++ log_lines evs2.
Proof. apply omap_app. Qed.

Lemma downstream_not_verify tsv evs :
  Forall (downstream_of tsv) evs -> Forall (fun ev => is_verify ev = false) evs.
Proof.
  intros H. eapply Forall_impl; [exact H|].
  intros ev [Hup | [d ->]]; [|done].
  by destruct ev.
Qed.

Lemma Exists_verify_false evs :
  Forall (fun ev => is_verify ev = false) evs ->
  ~ Exists (fun ev => is_verify ev = true) evs.
Proof.
  intros Hall Hex. apply Exists_exists in Hex as (ev & Hin & Hev).
  rewrite Forall_forall in Hall. specialize (Hall _ Hin). congruence.
Qed.

(** With [noverify] set, a run in the concrete installation logs the very
    lines of the run that verified: nothing in the log tells of the
    bypass. *)
Lemma bypass_is_silent :
  Cmd.noverify (with_noverify true (Sample.cmd Sample.good_url "" false)) = true /\
  ~ bypass_logged Sample.world (Sample.cmd Sample.good_url "" false) Sample.u
      Sample.good_url [Sample.controller] Sample.logger (initial ∅).
Proof.
  split; [reflexivity|]. intros H. apply H. vm_compute. reflexivity.
Qed.

(** C9, as the code has it: after a successful fetch, [verify] is called
    if and only if [noverify] is not set; [COMPARE_ACL] has it unset and
    no flag of [FlagSet] is bound to it, so a run verifies by default.
    The bypass itself leaves no trace in the log: where verification would
    have passed, the bypassing run logs exactly the lines of the verifying
    run. *)
Theorem verification_skipped_iff_noverify (W : World) (c : Cmd.CompareACL)
    (u : IDevice) (uri : string) (devices : list Device) (log : Logger)
    (st : State) (b : bytes) :
  fetched W (Cmd.credentials c) (Cmd.region c) uri = Ok b ->
  (Exists (fun ev => is_verify ev = true)
          (events (Cmd.execute W c u uri devices log st))
   <-> Cmd.noverify c = false) /\
  (forall D, Cmd.noverify (Cmd.COMPARE_ACL D) = false) /\
  (forall name, (name, Cmd.f_noverify) ∉ Cmd.FlagSet) /\
  (verdict W (Cmd.keysdir c) b = None ->
   log_lines (events (Cmd.execute W (with_noverify true c) u uri devices log st)) =
   log_lines (events (Cmd.execute W (with_noverify false c) u uri devices log st))).
Proof.
  intros Hf.
  destruct (execute_unpacked W c u uri devices log b Hf) as (rest & Hrest & Hrun).
  pose proof (downstream_not_verify _ _ (Hrest st)) as Hnv.
  pose proof (unpacking_before_verification W (Cmd.credentials c) (Cmd.region c)
                uri log b) as Hpre.
  split_and!.
  - rewrite <- (with_noverify_id c) at 1. rewrite Hrun. unfold unpacked_run.
    destruct (Cmd.noverify c); split; try done.
    + intros Hex. exfalso. revert Hex. apply Exists_verify_false.
      cbn [events snd]. apply Forall_app. split; [|done].
      eapply Forall_impl; [exact Hpre|]. by intros ev [_ ?].
    + intros _. destruct (verdict W (Cmd.keysdir c) b);
        cbn [events snd]; apply Exists_app; right; by constructor.
  - done.
  - intros name Hin. unfold Cmd.FlagSet in Hin.
    repeat (apply elem_of_cons in Hin as [Hin | Hin]; [discriminate|]).
    by apply elem_of_nil in Hin.
  - intros Hv. rewrite !Hrun. unfold unpacked_run. rewrite Hv.
    cbn [events snd]. rewrite !log_lines_app. f_equal.
Qed.

Lemma verification_skipped_iff_noverify_sample :
  let c := Sample.cmd Sample.s3_url "" true in
  let run nv := Cmd.execute Sample.world (with_noverify nv c) Sample.u
                  Sample.s3_url [Sample.controller] Sample.logger (initial ∅) in
  (Exists (fun ev => is_verify ev = true)
          (events (Cmd.execute Sample.world c Sample.u Sample.s3_url
                     [Sample.controller] Sample.logger (initial ∅)))
   <-> Cmd.noverify c = false) /\
  log_lines (events (run true)) = log_lines (events (run false)).
Proof.
  cbv zeta.
  destruct (verification_skipped_iff_noverify Sample.world
              (Sample.cmd Sample.s3_url "" true) Sample.u Sample.s3_url
              [Sample.controller] Sample.logger (initial ∅) Sample.archive)
    as (Hiff & _ & _ & Hlog); [reflexivity|].
  split; [exact Hiff | apply Hlog; reflexivity].
Defined.

(* ===================================================================== *)
(** ** Errors that are not acted on                                       *)
(* ===================================================================== *)

Lemma bind_ext {A B} (m : M A) (k k' : A -> M B) st :
  (forall a st', k a st' = k' a st') -> bind m k st = bind m k' st.
Proof.
  intros H. unfold bind. destruct (m st) as [[[a|e] st'] evs]; [|done].
  by rewrite H.
Qed.

(** Whether [untar] failed makes no difference to a run: [execute] does
    in a world the very same as in that world with the errors of [untar]
    taken away. *)
Lemma untar_error_ignored W c u uri devices log st :
  Cmd.execute (without_untar_error W) c u uri devices log st =
  Cmd.execute W c u uri devices log st.
Proof.
  unfold Cmd.execute.
  apply bind_ext; intros _ st1. cbv zeta.
  apply bind_ext; intros b st2.
  unfold bind at 1 3, call at 1 3.
  cbn [w_untar without_untar_error]. unfold untar_tsv, untar_signature, untar_uname.
  by destruct (w_untar W b) as [[[tsv sg] un] er].
Qed.

Lemma untar_error_ignored0 W c u uri devices log st :
  Cmd0.execute (without_untar_error W) c u uri devices log st =
  Cmd0.execute W c u uri devices log st.
Proof.
  unfold Cmd0.execute.
  apply bind_ext; intros _ st1. cbv zeta.
  apply bind_ext; intros b st2.
  unfold bind at 1 3, call at 1 3.
  cbn [w_untar without_untar_error]. unfold untar_tsv, untar_signature, untar_uname.
  by destruct (w_untar W b) as [[[tsv sg] un] er].
Qed.

(** C3, where the code departs from it: the error of [untar] is assigned
    and never tested. For a fetched blob that is not an archive, [untar]
    fails; [execute] all the same calls [verify] on the empty payload it
    got and returns the error of [verify], and with [noverify] set it
    goes on to parse that payload and returns the parser's error. In
    neither case is the error of [untar] returned. The earlier revision
    does the same. *)
Theorem untar_error_not_checked :
  untar_err Sample.world Sample.garbage = Some "gzip: invalid header" /\
  (let r := Cmd.execute Sample.world (Sample.cmd Sample.garbage_url "" false)
              Sample.u Sample.garbage_url [Sample.controller] Sample.logger
              (initial ∅) in
   outcome r = Err "open /etc/uhppoted/acl/keys/.pub: no such file or directory" /\
   last (events r) = Some (EvVerify "" [] [] "/etc/uhppoted/acl/keys")) /\
  (let r := Cmd.execute Sample.world
              (with_noverify true (Sample.cmd Sample.garbage_url "" false))
              Sample.u Sample.garbage_url [Sample.controller] Sample.logger
              (initial ∅) in
   outcome r = Err "missing header" /\
   last (events r) = Some (EvParseTSV [] [Sample.controller])) /\
  (let r := Cmd0.execute Sample.world (Sample.cmd0 Sample.garbage_url)
              Sample.u Sample.garbage_url [Sample.controller] Sample.logger
              (initial ∅) in
   outcome r = Err "open /etc/uhppoted/acl/keys/.pub: no such file or directory" /\
   last (events r) = Some (EvVerify "" [] [] "/etc/uhppoted/acl/keys")).
Proof. cbv zeta. split_and!; reflexivity. Qed.

(** With [noreport] set, the report step returns [nil] whatever the
    renderer returned. *)
Lemma report_stdout_never_fails W c current list_ log st :
  Cmd.noreport c = true ->
  outcome (Cmd.report W c current list_ log st) = Ok tt.
Proof.
  intros Hn. unfold Cmd.report. rewrite Hn.
  rewrite bind_outcome. cbn [Printf emit outcome fst final snd].
  rewrite bind_outcome. reflexivity.
Qed.

(** C4, where the code departs from it: with the no-report option the
    value [report] returns is dropped. With a template that does not
    parse, rendering fails; the run that prints to stdout returns [nil],
    while the same run writing to a file returns the error. *)
Theorem report_error_dropped_on_stdout :
  let broken := with_template "{{range" (Sample.cmd Sample.good_url "" true) in
  let to_file := with_template "{{range" (Sample.cmd Sample.good_url "" false) in
  snd (w_report Sample.world Sample.current Sample.authoritative
         (Cmd.template broken) Stdout)
    = Some "template: report: unexpected EOF" /\
  outcome (Cmd.execute Sample.world broken Sample.u Sample.good_url
             [Sample.controller] Sample.logger (initial ∅)) = Ok tt /\
  outcome (Cmd.execute Sample.world to_file Sample.u Sample.good_url
             [Sample.controller] Sample.logger (initial ∅))
    = Err "template: report: unexpected EOF".
Proof. cbv zeta. split_and!; reflexivity. Qed.

Lemma never_ok_bind {A} (m : M A) (k : A -> M unit) :
  (forall a, never_ok (k a)) -> never_ok (bind m k).
Proof.
  intros Hk st. rewrite bind_outcome.
  destruct (outcome (m st)); [apply Hk | done].
Qed.

(** The earlier revision of [execute] never returns [nil]. *)
Lemma execute0_never_succeeds W c u uri devices log :
  never_ok (Cmd0.execute W c u uri devices log).
Proof.
  unfold Cmd0.execute.
  apply never_ok_bind; intros _. cbv zeta.
  apply never_ok_bind; intros b.
  apply never_ok_bind; intros [[[tsv sg] un] er].
  do 5 (apply never_ok_bind; intros ?).
  done.
Qed.

(** C5, where the code departs from it: in the earlier revision a run in
    which every step succeeds, the report included, ends with the error
    [OOOPS]. *)
Theorem successful_run_returns_error :
  let r := Cmd0.Execute Sample.world (Sample.cmd0 Sample.good_url) (initial ∅) in
  outcome r = Err "OOOPS" /\
  last (events r) = Some (EvReport0 Sample.current Sample.authoritative
                                    (DEFAULT_WORKDIR Sample.defaults)) /\
  fs (final r) !! "/var/uhppoted/acl.rpt" = Some "report".
Proof. cbv zeta. split_and!; reflexivity. Qed.

(* ===================================================================== *)
(** ** The upload and the local report                                    *)
(* ===================================================================== *)

Lemma bind_respects {A B} (R : relation State) `{!PreOrder R}
    (m : M A) (k : A -> M B) :
  respects R m -> (forall a, respects R (k a)) -> respects R (bind m k).
Proof.
  intros Hm Hk st. rewrite bind_final. specialize (Hm st).
  destruct (outcome (m st)); [|done].
  etransitivity; [exact Hm | apply Hk].
Qed.

#[global] Instance same_files_preorder : PreOrder same_files.
Proof.
  split.
  - by intros st.
  - intros s1 s2 s3 H1 H2. unfold same_files in *. congruence.
Qed.

(** Steps that leave the state alone, or change something other than the
    files. *)
Lemma same_files_silent {A} (m : M A) :
  (forall st, fs (final (m st)) = fs st) -> respects same_files m.
Proof. intros H st. apply H. Qed.

Lemma same_files_pkg_report W current list_ template w :
  (forall name, w <> FileW name) ->
  respects same_files (pkg_report W current list_ template w).
Proof.
  intros Hw. unfold pkg_report.
  apply bind_respects; [apply _ | by apply same_files_silent | intros _].
  apply bind_respects; [apply _ | | intros _; by apply same_files_silent].
  apply same_files_silent. intros st.
  destruct w; try done. by destruct (Hw name).
Qed.

(** Whatever becomes of the upload, it leaves the files as they are. *)
Lemma upload_same_files W c current list_ log :
  respects same_files (Cmd.upload W c current list_ log).
Proof.
  unfold Cmd.upload, Cmd.storeS3, Cmd.storeHTTP.
  apply bind_respects; [apply _ | by apply same_files_silent | intros _].
  apply bind_respects; [apply _ | by apply same_files_silent | intros _].
  apply bind_respects; [apply _ | by apply same_files_pkg_report | intros _].
  apply bind_respects; [apply _ | by apply same_files_silent | intros filename].
  apply bind_respects; [apply _ | by apply same_files_silent | intros w].
  apply bind_respects; [apply _ | by apply same_files_silent | intros signature].
  apply bind_respects; [apply _ | by apply same_files_silent | intros b].
  apply bind_respects; [apply _ | by apply same_files_silent | intros _].
  apply bind_respects; [apply _ | | intros _].
  { destruct (GoStrings.HasPrefix _ _); by apply same_files_silent. }
  apply bind_respects; [apply _ | by apply same_files_silent | intros _].
  by apply same_files_silent.
Qed.

Lemma for_each_Printf {A} (xs : list A) lg (f : A -> string) (g : A -> list arg) st :
  for_each xs (fun x => Printf lg (f x) (g x)) st =
  (Ok tt, st, map (fun x => EvLog lg (f x) (g x)) xs).
Proof.
  induction xs as [|x xs IH]; [done|].
  cbn [for_each]. erewrite bind_run by reflexivity. by rewrite IH.
Qed.

Lemma upload_sign_fails W c current list_ log st e :
  snd (w_report W current list_ (Cmd.template c) BuilderW) = None ->
  w_sign W (list_byte_of_string (upload_text W c current list_)) (Cmd.keyfile c) = Err e ->
  outcome (Cmd.upload W c current list_ log st) = Err e /\
  last (events (Cmd.upload W c current list_ log st)) =
    Some (EvSign (list_byte_of_string (upload_text W c current list_)) (Cmd.keyfile c)).
Proof.
  intros Hr Hs. unfold Cmd.upload, upload_text in *.
  erewrite bind_run by reflexivity.
  erewrite bind_run by reflexivity.
  erewrite bind_run; cycle 1.
  { unfold pkg_report. erewrite bind_run by reflexivity.
    erewrite bind_run by reflexivity. rewrite Hr. reflexivity. }
  erewrite bind_run by reflexivity.
  erewrite bind_run by reflexivity.
  erewrite bind_stop; cycle 1.
  { unfold call. cbn [written set_builder builder tick final outcome fst snd].
    change ("" +:+ ?x) with x. rewrite Hs. reflexivity. }
  split; reflexivity.
Qed.

(** A run in which the ACL is fetched, unpacked, verified (or the
    verification bypassed), parsed and the device state retrieved goes on
    with the report. *)
Lemma execute_to_report W c u uri devices log st b list_ current :
  fetched W (Cmd.credentials c) (Cmd.region c) uri = Ok b ->
  (Cmd.noverify c = true \/ verdict W (Cmd.keysdir c) b = None) ->
  w_ParseTSV W (untar_tsv W b) devices = Ok list_ ->
  w_GetACL W u devices = Ok current ->
  Cmd.execute W c u uri devices log st =
  (outcome (reporting W c current list_ log st),
   final (reporting W c current list_ log st),
   retrieval W c uri devices log b list_
   ++ events (reporting W c current list_ log st)).
Proof.
  intros Hf Hv Hp Hg.
  unfold Cmd.execute, retrieval, reporting, verdict, verify_event, unpacking,
    untar_tsv, untar_signature, untar_uname in *.
  destruct (w_untar W b) as [[[tsv sg] un] er] eqn:Hu. cbn [fst snd] in *.
  erewrite bind_run by reflexivity. cbv beta zeta.
  erewrite bind_run by (by apply fetch_step). cbv beta.
  erewrite bind_run by reflexivity. cbv beta. rewrite Hu.
  erewrite bind_run by reflexivity. cbv beta.
  erewrite (bind_run _ _ _ tt st (if Cmd.noverify c then [] else [_])); cycle 1.
  { destruct (Cmd.noverify c); [done|]. destruct Hv as [?|Hv]; [done|].
    cbn [negb]. unfold call. by rewrite Hv. }
  erewrite bind_run by (unfold call; rewrite Hp; reflexivity).
  erewrite bind_run by apply for_each_Printf.
  erewrite bind_run by (unfold call; rewrite Hg; reflexivity).
  cbn [outcome final events fst snd].
  f_equal. destruct (Cmd.noverify c); cbn [app]; by rewrite <- ?app_assoc.
Qed.

(** C8: when [sign] fails during the upload, [execute] returns that error
    and stops there, and the files are exactly those the report step
    left: the report file it wrote is neither changed nor removed. With a
    report file asked for (no [noreport]), that file holds the rendered
    report. *)
Theorem signing_failure_keeps_report (W : World) (c : Cmd.CompareACL)
    (u : IDevice) (uri : string) (devices : list Device) (log : Logger)
    (st : State) (b : bytes) (list_ current : ACL) (e : error) :
  fetched W (Cmd.credentials c) (Cmd.region c) uri = Ok b ->
  (Cmd.noverify c = true \/ verdict W (Cmd.keysdir c) b = None) ->
  w_ParseTSV W (untar_tsv W b) devices = Ok list_ ->
  w_GetACL W u devices = Ok current ->
  outcome (Cmd.report W c current list_ log st) = Ok tt ->
  Cmd.rpt c <> "" ->
  snd (w_report W current list_ (Cmd.template c) BuilderW) = None ->
  w_sign W (list_byte_of_string (upload_text W c current list_)) (Cmd.keyfile c)
    = Err e ->
  let r := Cmd.execute W c u uri devices log st in
  let file := w_filepath_Join W (Cmd.workdir c)
                (w_Now_Format W (ticks st) "acl-2006-01-02T150405.rpt") in
  outcome r = Err e /\
  last (events r) =
    Some (EvSign (list_byte_of_string (upload_text W c current list_)) (Cmd.keyfile c)) /\
  fs (final r) = fs (final (Cmd.report W c current list_ log st)) /\
  (Cmd.noreport c = false ->
   fs (final r) !! file =
     Some (fst (w_report W current list_ (Cmd.template c) (FileW file)))).
Proof.
  intros Hf Hv Hp Hg Hrep Hrpt Hr Hs r file. subst r.
  rewrite (execute_to_report W c u uri devices log st b list_ current) by done.
  cbn [outcome final events fst snd]. unfold reporting.
  set (st' := final (Cmd.report W c current list_ log st)).
  destruct (upload_sign_fails W c current list_ log st' e Hr Hs) as [Hout Hlast].
  pose proof (upload_same_files W c current list_ log st') as Hfs.
  unfold same_files in Hfs.
  rewrite !bind_outcome, !bind_final, !bind_events, Hrep. fold st'.
  rewrite decide_True by done. rewrite Hout.
  split_and!.
  - done.
  - rewrite app_nil_r, !app_assoc.
    destruct (events (Cmd.upload W c current list_ log st'))
      as [|ev evs _] using rev_ind; [done|].
    rewrite app_assoc, last_snoc in *. done.
  - done.
  - intros Hnr. rewrite Hfs. subst st'. clear -Hrep Hnr.
    unfold Cmd.report in *. rewrite Hnr in *.
    rewrite bind_final, bind_outcome in *. cbn [Printf emit outcome final fst snd] in *.
    rewrite bind_final, bind_outcome in *.
    cbn [Now_Format outcome final fst snd] in *.
    rewrite bind_final, bind_outcome in *. fold file in Hrep |- *.
    unfold os_Create in *. destruct (w_os_Create W file); [done|].
    cbn [outcome final fst snd tick ticks fs set_fs] in *.
    unfold defer in *. cbn [outcome final fst snd Close emit] in *.
    rewrite bind_final. cbn [Printf emit outcome final fst snd].
    unfold pkg_report. rewrite bind_final. cbn [emit outcome final fst snd].
    rewrite bind_final. cbn [write written outcome final fst snd fs set_fs].
    rewrite lookup_insert_eq. cbn [default]. change ("" +:+ ?x) with x.
    by rewrite lookup_insert_eq.
Qed.

(* ===================================================================== *)
(** ** The diff partitions the record keys                                *)
(* ===================================================================== *)

Section DiffDevice.
Variables current authoritative : list record.

#[local] Abbreviation cur := (DiffEngine.lookup_by_key current).
#[local] Abbreviation auth := (DiffEngine.lookup_by_key authoritative).
#[local] Abbreviation d := (DiffEngine.diff_device current authoritative).

Lemma lookup_by_key_key rs k r :
  DiffEngine.lookup_by_key rs !! k = Some r -> key r = k.
Proof.
  unfold DiffEngine.lookup_by_key. intros H%elem_of_list_to_map_2.
  apply list_elem_of_fmap in H as (r' & Heq & _). by simplify_eq.
Qed.

Lemma dom_lookup_by_key rs :
  dom (DiffEngine.lookup_by_key rs) = DiffEngine.keys rs.
Proof.
  unfold DiffEngine.lookup_by_key, DiffEngine.keys.
  rewrite dom_list_to_map_L. f_equal. rewrite <- list_fmap_compose.
  by apply list_fmap_ext.
Qed.

(** The keys of the records of a lookup are the lookup's keys. *)
Lemma keys_of_entries (m m' : gmap N record) :
  (forall k r, m !! k = Some r -> key r = k) ->
  key <$> (snd <$> map_to_list (m ∖ m')) = (map_to_list (m ∖ m')).*1.
Proof.
  intros Hm. rewrite <- list_fmap_compose. apply list_fmap_ext.
  intros i [k r] Hi. apply list_elem_of_lookup_2 in Hi.
  apply elem_of_map_to_list, lookup_difference_Some in Hi as [Hi _].
  by apply Hm.
Qed.

Lemma keys_of_filtered (Z : list (N * (record * record)))
    (P : record * record -> Prop) `{!forall p, Decision (P p)} :
  (forall z, z ∈ Z -> key (fst (snd z)) = fst z) ->
  (fun p => key (fst p)) <$> filter P (snd <$> Z) =
  fst <$> filter (fun z => P (snd z)) Z.
Proof.
  induction Z as [|z Z IH]; intros HZ; [done|].
  rewrite fmap_cons, !filter_cons.
  assert (Hz : key (fst (snd z)) = fst z) by (apply HZ; left).
  assert (IH' := IH (fun z' Hin => HZ z' (list_elem_of_further _ _ _ Hin))).
  destruct (decide (P (snd z))); [rewrite !fmap_cons; congruence | done].
Qed.

#[local] Abbreviation Z := (map_to_list (map_zip cur auth)).

Lemma zipped_keys z : z ∈ Z -> key (fst (snd z)) = fst z.
Proof.
  destruct z as [k [c a]]. intros H%elem_of_map_to_list.
  apply map_lookup_zip_Some in H as [Hc _]. by apply lookup_by_key_key in Hc.
Qed.

Lemma unchanged_keys_eq :
  DiffEngine.unchanged_keys d =
  fst <$> filter (fun z => DiffEngine.fields_equal (snd z) = true) Z.
Proof.
  unfold DiffEngine.unchanged_keys, DiffEngine.diff_device. cbn [Unchanged].
  rewrite <- list_fmap_compose. unfold DiffEngine.in_both, compose.
  apply @keys_of_filtered, zipped_keys.
Qed.

Lemma updated_keys_eq :
  DiffEngine.updated_keys d =
  fst <$> filter (fun z => DiffEngine.fields_equal (snd z) = false) Z.
Proof.
  unfold DiffEngine.updated_keys, DiffEngine.diff_device. cbn [Updated].
  unfold DiffEngine.in_both.
  apply @keys_of_filtered, zipped_keys.
Qed.

Lemma added_keys_eq :
  DiffEngine.added_keys d = (map_to_list (auth ∖ cur)).*1.
Proof. apply keys_of_entries. intros k r. apply lookup_by_key_key. Qed.

Lemma deleted_keys_eq :
  DiffEngine.deleted_keys d = (map_to_list (cur ∖ auth)).*1.
Proof. apply keys_of_entries. intros k r. apply lookup_by_key_key. Qed.

(** What each class holds. *)
Lemma elem_of_filtered_keys (b : bool) k :
  k ∈ fst <$> filter (fun z => DiffEngine.fields_equal (snd z) = b) Z <->
  exists c a, cur !! k = Some c /\ auth !! k = Some a /\
              DiffEngine.fields_equal (c, a) = b.
Proof.
  rewrite list_elem_of_fmap. split.
  - intros ([k' [c a]] & -> & [HQ Hin]%list_elem_of_filter).
    apply elem_of_map_to_list, map_lookup_zip_Some in Hin as [Hc Ha].
    by exists c, a.
  - intros (c & a & Hc & Ha & HQ). exists (k, (c, a)). split; [done|].
    apply list_elem_of_filter. split; [done|].
    by apply elem_of_map_to_list, map_lookup_zip_Some.
Qed.

Lemma elem_of_unchanged_keys k :
  k ∈ DiffEngine.unchanged_keys d <->
  exists c a, cur !! k = Some c /\ auth !! k = Some a /\ fields c = fields a.
Proof.
  rewrite unchanged_keys_eq, elem_of_filtered_keys.
  unfold DiffEngine.fields_equal. cbn [fst snd].
  by setoid_rewrite bool_decide_eq_true.
Qed.

Lemma elem_of_updated_keys k :
  k ∈ DiffEngine.updated_keys d <->
  exists c a, cur !! k = Some c /\ auth !! k = Some a /\ fields c <> fields a.
Proof.
  rewrite updated_keys_eq, elem_of_filtered_keys.
  unfold DiffEngine.fields_equal. cbn [fst snd].
  by setoid_rewrite bool_decide_eq_false.
Qed.

Lemma elem_of_entry_keys (m m' : gmap N record) k :
  k ∈ (map_to_list (m ∖ m')).*1 <-> is_Some (m !! k) /\ m' !! k = None.
Proof.
  rewrite list_elem_of_fmap. split.
  - intros ([k' r] & -> & Hin). cbn [fst].
    apply elem_of_map_to_list, lookup_difference_Some in Hin as [Hr Hn]. eauto.
  - intros [[r Hr] Hn]. exists (k, r). split; [done|].
    by apply elem_of_map_to_list, lookup_difference_Some.
Qed.

Lemma elem_of_added_keys k :
  k ∈ DiffEngine.added_keys d <-> is_Some (auth !! k) /\ cur !! k = None.
Proof. rewrite added_keys_eq. apply elem_of_entry_keys. Qed.

Lemma elem_of_deleted_keys k :
  k ∈ DiffEngine.deleted_keys d <-> is_Some (cur !! k) /\ auth !! k = None.
Proof. rewrite deleted_keys_eq. apply elem_of_entry_keys. Qed.

Lemma NoDup_filtered_keys (b : bool) :
  NoDup (fst <$> filter (fun z => DiffEngine.fields_equal (snd z) = b) Z).
Proof.
  apply NoDup_fmap_fst; [|apply NoDup_filter, NoDup_map_to_list].
  intros k p1 p2 [_ H1]%list_elem_of_filter [_ H2]%list_elem_of_filter.
  exact (map_to_list_unique _ _ _ _ H1 H2).
Qed.

(** No key is classified twice. *)
Lemma classified_NoDup : NoDup (DiffEngine.classified d).
Proof.
  unfold DiffEngine.classified. rewrite !NoDup_app. split_and!.
  - rewrite unchanged_keys_eq. apply NoDup_filtered_keys.
  - intros k Hu. rewrite !elem_of_app.
    apply elem_of_unchanged_keys in Hu as (c & a & Hc & Ha & Heq).
    rewrite elem_of_updated_keys, elem_of_added_keys, elem_of_deleted_keys.
    intros [(c' & a' & Hc' & Ha' & Hne) | [[_ Hn] | [_ Hn]]]; congruence.
  - rewrite updated_keys_eq. apply NoDup_filtered_keys.
  - intros k Hu. rewrite !elem_of_app.
    apply elem_of_updated_keys in Hu as (c & a & Hc & Ha & Heq).
    rewrite elem_of_added_keys, elem_of_deleted_keys.
    intros [[_ Hn] | [_ Hn]]; congruence.
  - rewrite added_keys_eq. apply NoDup_fst_map_to_list.
  - intros k Hu. apply elem_of_added_keys in Hu as [Ha Hc].
    rewrite elem_of_deleted_keys. rewrite Hc. by intros [[] _].
  - rewrite deleted_keys_eq. apply NoDup_fst_map_to_list.
Qed.

(** Every key of either side is classified, and no other. *)
Lemma classified_keys k :
  k ∈ DiffEngine.classified d <->
  k ∈ DiffEngine.keys current ∪ DiffEngine.keys authoritative.
Proof.
  unfold DiffEngine.classified.
  rewrite !elem_of_app, elem_of_unchanged_keys, elem_of_updated_keys,
    elem_of_added_keys, elem_of_deleted_keys.
  rewrite elem_of_union, <- !dom_lookup_by_key, !elem_of_dom.
  unfold is_Some.
  destruct (cur !! k) as [c|], (auth !! k) as [a|];
    try destruct (decide (fields c = fields a)).
  - split; [eauto|]. intros _. left. by exists c, a.
  - split; [eauto|]. intros _. right. left. by exists c, a.
  - split; [eauto|]. intros _. do 3 right. eauto.
  - split; [eauto|]. intros _. do 2 right. left. eauto.
  - split.
    + intros [(? & ? & ? & _) | [(? & ? & ? & _) | [[[? ?] _] | [[? ?] _]]]];
        discriminate.
    + intros [[? ?] | [? ?]]; discriminate.
Qed.
End DiffDevice.

Lemma diff_lookup (current authoritative : ACL) (dev : N) :
  dev ∈ dom current ∪ dom authoritative ->
  DiffEngine.diff current authoritative !! dev =
  Some (DiffEngine.diff_device (DiffEngine.device_records current dev)
                               (DiffEngine.device_records authoritative dev)).
Proof.
  rewrite elem_of_union, !elem_of_dom. intros Hdev.
  unfold DiffEngine.diff, DiffEngine.device_records. rewrite lookup_merge.
  destruct (current !! dev), (authoritative !! dev); try done.
  by destruct Hdev as [[? ?] | [? ?]].
Qed.

(** C2: for two ACLs and a device that appears in either, the diff has an
    entry for the device, and the record keys of its four classifications
    are pairwise disjoint sets whose union is the union of the record keys
    of both sides; no class lists a key twice, so every key of either side
    is classified exactly once. *)
Theorem diff_partitions_keys (current authoritative : ACL) (dev : N) :
  dev ∈ dom current ∪ dom authoritative ->
  exists d : Diff,
    DiffEngine.diff current authoritative !! dev = Some d /\
    let unchanged : gset N := list_to_set (DiffEngine.unchanged_keys d) in
    let updated : gset N := list_to_set (DiffEngine.updated_keys d) in
    let added : gset N := list_to_set (DiffEngine.added_keys d) in
    let deleted : gset N := list_to_set (DiffEngine.deleted_keys d) in
    unchanged ## updated /\ unchanged ## added /\ unchanged ## deleted /\
    updated ## added /\ updated ## deleted /\ added ## deleted /\
    unchanged ∪ updated ∪ added ∪ deleted =
      DiffEngine.keys (DiffEngine.device_records current dev)
      ∪ DiffEngine.keys (DiffEngine.device_records authoritative dev) /\
    NoDup (DiffEngine.classified d).
Proof.
  intros Hdev. eexists. split; [by apply diff_lookup|].
  set (cur := DiffEngine.device_records current dev).
  set (auth := DiffEngine.device_records authoritative dev).
  pose proof (classified_NoDup cur auth) as Hnd.
  pose proof (classified_keys cur auth) as Hkeys.
  set (d := DiffEngine.diff_device cur auth) in *.
  cbv zeta. unfold DiffEngine.classified in *.
  apply NoDup_app in Hnd as (_ & H1 & Hnd).
  apply NoDup_app in Hnd as (_ & H2 & Hnd).
  apply NoDup_app in Hnd as (_ & H3 & _).
  setoid_rewrite elem_of_app in H1. setoid_rewrite elem_of_app in H1.
  setoid_rewrite elem_of_app in H2.
  split_and!.
  1-6: apply elem_of_disjoint; intros k; rewrite !elem_of_list_to_set;
       intros Hk Hk'.
  - apply (H1 k Hk). by left.
  - apply (H1 k Hk). right. by left.
  - apply (H1 k Hk). right. by right.
  - apply (H2 k Hk). by left.
  - apply (H2 k Hk). by right.
  - by apply (H3 k Hk).
  - apply set_eq. intros k. rewrite <- Hkeys.
    rewrite !elem_of_union, !elem_of_list_to_set, !elem_of_app. tauto.
  - apply (classified_NoDup cur auth).
Qed.

(* ===================================================================== *)
(** ** The sections of the rendered report                                *)
(* ===================================================================== *)

Section Sections.
Variable fmt_id : N -> string.
Variable fmt_record : record -> string.
Variable fmt_update : record * record -> string.

Lemma text_of_range_items {A} (fmt : A -> string) (items : list A) h :
  Template.Text h ∈ Template.range_items fmt items -> h = Template.item_sep.
Proof.
  unfold Template.range_items. rewrite list_elem_of_In, in_flat_map.
  intros (x & _ & [H | [H | []]]); congruence.
Qed.

(** A guarded section shows its header exactly when the guard holds. *)
Lemma header_of_section {A} (guard : bool) (hdr : string) (fmt : A -> string)
    (items : list A) h :
  h <> Template.item_sep ->
  Template.Text h ∈ (if guard
                     then Template.Text hdr :: Template.range_items fmt items
                     else []) <->
  guard = true /\ h = hdr.
Proof.
  intros Hsep. destruct guard.
  - rewrite elem_of_cons. split.
    + intros [H | H%text_of_range_items]; [by simplify_eq | done].
    + intros [_ ->]. by left.
  - split; [by intros ?%elem_of_nil | by intros [? _]].
Qed.

Lemma truth_nonempty {A} (l : list A) : Template.truth l = true <-> l <> [].
Proof. by destruct l. Qed.

(** What the template does: the [Missing:] and [Unexpected:] sections are
    written exactly when [Added] and [Deleted] have entries; the
    [Incorrect:] section is written exactly when [Unchanged] has. *)
Lemma sections_written (id : N) (value : Diff) :
  let out := Template.render_device fmt_id fmt_record fmt_update id value in
  (Template.Text Template.incorrect_hdr ∈ out <-> Unchanged value <> []) /\
  (Template.Text Template.missing_hdr ∈ out <-> Added value <> []) /\
  (Template.Text Template.unexpected_hdr ∈ out <-> Deleted value <> []).
Proof.
  cbv zeta. unfold Template.render_device.
  rewrite <- !truth_nonempty. split_and!.
  all: rewrite !elem_of_app, !header_of_section by done.
  all: rewrite !elem_of_cons, elem_of_nil.
  all: split; [intros [[H | [H | []]] | [[? H] | [[? H] | [? H]]]];
                 try done; discriminate
              | intros H ].
  - right. left. done.
  - do 2 right. left. done.
  - do 3 right. done.
Qed.
End Sections.

(** C6, where the code departs from it: the template guards the
    [Incorrect:] section with [Unchanged], not with [Updated]. A device
    whose only record is unchanged gets an [Incorrect:] header although
    nothing was updated, and a device whose only record was updated gets
    no [Incorrect:] section at all. *)
Theorem incorrect_section_follows_unchanged :
  let r := mkRecord 1001 (Sample.door "doorA") in
  let r' := mkRecord 1001 (Sample.door "doorB") in
  let synced := mkDiff [r] [] [] [] in
  let stale := mkDiff [] [(r', r)] [] [] in
  let render := Template.render_device pretty Sample.fmt_record Sample.fmt_update
                  Sample.controller in
  (Updated synced = [] /\
   Template.Text Template.incorrect_hdr ∈ render synced /\
   Template.output (render synced) =
     Template.device_hdr +:+ "405419896" +:+ Template.incorrect_hdr) /\
  (Updated stale <> [] /\
   (Template.Text Template.incorrect_hdr ∉ render stale) /\
   Template.output (render stale) = Template.device_hdr +:+ "405419896").
Proof.
  cbv zeta. split_and!; try done.
  - apply sections_written. done.
  - rewrite (proj1 (sections_written _ _ _ _ _)). by intros H.
Qed.

(* ===================================================================== *)
(** ** Instances in the concrete installation                             *)
(* ===================================================================== *)

(** In the later revision a run in which every step succeeds and no
    upload is asked for returns [nil]. *)
Lemma execute_succeeds W c u uri devices log st b list_ current :
  fetched W (Cmd.credentials c) (Cmd.region c) uri = Ok b ->
  (Cmd.noverify c = true \/ verdict W (Cmd.keysdir c) b = None) ->
  w_ParseTSV W (untar_tsv W b) devices = Ok list_ ->
  w_GetACL W u devices = Ok current ->
  outcome (Cmd.report W c current list_ log st) = Ok tt ->
  Cmd.rpt c = "" ->
  outcome (Cmd.execute W c u uri devices log st) = Ok tt.
Proof.
  intros Hf Hv Hp Hg Hrep Hrpt.
  rewrite (execute_to_report W c u uri devices log st b list_ current) by done.
  cbn [outcome fst]. unfold reporting.
  rewrite !bind_outcome, Hrep. rewrite decide_False; [done|]. by intros [].
Qed.

Lemma Execute_requires_url_blank :
  Cmd.Execute Sample.world (Sample.cmd Sample.blank "" false) (initial ∅)
  = (Err requires_url, initial ∅, []).
Proof.
  apply (proj1 (Execute_requires_url Sample.world
                  (Sample.cmd Sample.blank "" false)
                  (Sample.cmd0 "") (initial ∅))).
  vm_compute. reflexivity.
Defined.

Lemma verification_on_extracted_bytes_sample :
  exists pre post,
    events (Cmd.execute Sample.world (Sample.cmd Sample.good_url "" false)
              Sample.u Sample.good_url [Sample.controller] Sample.logger
              (initial ∅)) =
      pre ++ [EvUntar Sample.archive;
              EvLog Sample.logger
                "Extracted ACL from %v: %v bytes, signature: %v bytes"
                [AStr Sample.good_url;
                 AInt (len (untar_tsv Sample.world Sample.archive));
                 AInt (len (untar_signature Sample.world Sample.archive))];
              EvVerify (untar_uname Sample.world Sample.archive)
                       (untar_tsv Sample.world Sample.archive)
                       (untar_signature Sample.world Sample.archive)
                       (DEFAULT_KEYSDIR Sample.defaults)] ++ post /\
    Forall (fun ev => after_verification ev = false) pre /\
    forall tsv d, EvParseTSV tsv d ∈ post ->
                  tsv = untar_tsv Sample.world Sample.archive.
Proof.
  apply (proj1 (verification_on_extracted_bytes Sample.world Sample.u
                  Sample.good_url [Sample.controller] Sample.logger (initial ∅)
                  Sample.archive (Sample.cmd Sample.good_url "" false)
                  (Sample.cmd0 Sample.good_url))); reflexivity.
Defined.

Lemma signing_failure_keeps_report_sample :
  let c := with_keyfile "/etc/uhppoted/missing.key"
             (Sample.cmd Sample.good_url Sample.report_url false) in
  let r := Cmd.execute Sample.world c Sample.u Sample.good_url
             [Sample.controller] Sample.logger (initial ∅) in
  outcome r = Err "open /etc/uhppoted/missing.key: no such file or directory" /\
  fs (final r) =
    fs (final (Cmd.report Sample.world c Sample.current Sample.authoritative
                 Sample.logger (initial ∅))).
Proof.
  cbv zeta.
  pose proof (signing_failure_keeps_report Sample.world
    (with_keyfile "/etc/uhppoted/missing.key"
       (Sample.cmd Sample.good_url Sample.report_url false))
    Sample.u Sample.good_url [Sample.controller] Sample.logger (initial ∅)
    Sample.archive Sample.authoritative Sample.current
    "open /etc/uhppoted/missing.key: no such file or directory") as H.
  cbv zeta in H.
  destruct H as (Hout & _ & Hfs & _);
    [reflexivity | right; reflexivity | reflexivity | reflexivity
    | reflexivity | discriminate | reflexivity | reflexivity |].
  split; [exact Hout | exact Hfs].
Defined.

Lemma diff_partitions_keys_sample :
  exists d : Diff,
    DiffEngine.diff Sample.current Sample.authoritative !! Sample.controller
      = Some d /\
    NoDup (DiffEngine.classified d).
Proof.
  destruct (diff_partitions_keys Sample.current Sample.authoritative
              Sample.controller) as (d & Hd & H).
  - apply elem_of_union. left. apply elem_of_dom. eexists. reflexivity.
  - exists d. split; [exact Hd | apply H].
Defined.

(* ===================================================================== *)
(** ** More of [strings.TrimSpace]                                        *)
(* ===================================================================== *)

Lemma IsSpace_RuneError : GoStrings.IsSpace GoStrings.RuneError = false.
Proof. reflexivity. Qed.

Lemma first_size s0 sz lo hi :
  GoStrings.first s0 = Some (sz, lo, hi) -> sz = 2 \/ sz = 3 \/ sz = 4.
Proof.
  unfold GoStrings.first. repeat case_match; intros; simplify_eq; auto.
Qed.

Lemma first_ascii b : (b <? GoStrings.RuneSelf)%N = true -> GoStrings.first b = None.
Proof.
  unfold GoStrings.RuneSelf, GoStrings.first. intros Hb%N.ltb_lt.
  repeat match goal with
         | |- context [(?x <=? ?y)%N] => destruct (N.leb_spec x y); try lia
         | |- context [(?x =? ?y)%N] => destruct (N.eqb_spec x y); try lia
         end; reflexivity.
Qed.

(** A rune has at least one byte and no more than the string has. *)
Lemma DecodeRune_width s :
  s <> [] -> 1 <= snd (GoStrings.DecodeRune s) <= length s.
Proof.
  destruct s as [|s0 t]; [done|]. intros _. unfold GoStrings.DecodeRune.
  destruct (GoStrings.first s0) as [[[sz lo] hi]|] eqn:Hf.
  - apply first_size in Hf.
    destruct t as [|s1 [|s2 [|s3 t]]]; cbn [length];
      destruct Hf as [-> | [-> | ->]]; cbn;
      repeat case_match; cbn; lia.
  - case_match; cbn; lia.
Qed.

(** A rune that decodes to white space from a prefix of a string decodes
    the same from the whole string. *)
Lemma DecodeRune_take i t r w :
  GoStrings.DecodeRune (take i t) = (r, w) ->
  GoStrings.IsSpace r = true ->
  GoStrings.DecodeRune t = (r, w).
Proof.
  intros Hd Hsp.
  assert (Herr : forall n, (GoStrings.RuneError, n) = (r, w) -> False).
  { intros n [= <- _]. by rewrite IsSpace_RuneError in Hsp. }
  destruct t as [|s0 t]; [by rewrite take_nil in Hd|].
  destruct i as [|i]; [by apply Herr in Hd|].
  revert Hd. cbn [take]. unfold GoStrings.DecodeRune.
  destruct (GoStrings.first s0) as [[[sz lo] hi]|] eqn:Hf; [|done].
  apply first_size in Hf.
  destruct t as [|s1 t]; [by rewrite take_nil|].
  destruct Hf as [-> | [-> | ->]];
    destruct t as [|s2 [|s3 t]]; destruct i as [|[|[|i]]];
    cbn [take length]; rewrite ?take_nil; cbn;
    repeat case_match; intros Hd; try done; by apply Herr in Hd.
Qed.

(** The last rune of a string, when it is white space, is the rune that
    decodes from where it starts. *)
Lemma DecodeLastRune_space s r size :
  GoStrings.DecodeLastRune s = (r, size) ->
  GoStrings.IsSpace r = true ->
  1 <= size <= length s /\
  GoStrings.DecodeRune (drop (length s - size) s) = (r, size).
Proof.
  unfold GoStrings.DecodeLastRune. intros Hd Hsp.
  assert (Herr : forall n, (GoStrings.RuneError, n) = (r, size) -> False).
  { intros n [= <- _]. by rewrite IsSpace_RuneError in Hsp. }
  destruct (length s) as [|start] eqn:Hlen; [by apply Herr in Hd|].
  destruct (s !! start) as [c|] eqn:Hc; [|by apply Herr in Hd].
  destruct (c <? GoStrings.RuneSelf)%N eqn:Hascii.
  - injection Hd as <- <-. split; [lia|].
    replace (S start - 1) with start by lia.
    rewrite (drop_S _ _ _ Hc), drop_ge by lia.
    unfold GoStrings.DecodeRune. by rewrite first_ascii, Hascii.
  - revert Hd. match goal with |- context [drop ?n s] => generalize n end.
    intros start'. destruct (GoStrings.DecodeRune (drop start' s)) as [r' size'] eqn:Hr.
    destruct (start' + size' =? S start)%nat eqn:Heq; [|intros Hd; by apply Herr in Hd].
    intros [= -> ->]. apply Nat.eqb_eq in Heq.
    assert (drop start' s <> []) as Hne.
    { intros Hnil. rewrite Hnil in Hr. injection Hr as <- _.
      by rewrite IsSpace_RuneError in Hsp. }
    pose proof (DecodeRune_width _ Hne) as Hw. rewrite Hr in Hw. cbn [snd] in Hw.
    split; [lia|]. by replace (S start - size) with start' by lia.
Qed.

(** When the scan from the end finds only white space, the string begins
    with white space. *)
Lemma lastIndexFunc_aux_None t fuel i :
  i <= fuel -> 0 < i <= length t ->
  GoStrings.lastIndexFunc_aux fuel t GoStrings.IsSpace false i = None ->
  GoStrings.IsSpace (fst (GoStrings.DecodeRune t)) = true.
Proof.
  revert i. induction fuel as [|fuel IH]; intros i Hfuel Hi; [lia|].
  cbn [GoStrings.lastIndexFunc_aux]. destruct i as [|i]; [lia|].
  destruct (GoStrings.DecodeLastRune (take (S i) t)) as [r size] eqn:Hd.
  destruct (GoStrings.IsSpace r) eqn:Hsp; [|done]. cbn [Bool.eqb].
  destruct (DecodeLastRune_space _ _ _ Hd Hsp) as [Hsize Hrune].
  rewrite length_take_le in Hsize, Hrune by lia.
  intros Hnone. destruct (decide (S i - size = 0)) as [Hz|Hnz].
  - rewrite Hz, drop_0 in Hrune.
    by rewrite (DecodeRune_take _ _ _ _ Hrune Hsp).
  - apply (IH (S i - size)); [lia | lia | done].
Qed.

(** Trimming at the right leaves something of a string that begins with
    a rune that is not white space. *)
Lemma TrimRightFunc_nil t :
  GoStrings.TrimRightFunc t GoStrings.IsSpace = [] ->
  t = [] \/ GoStrings.IsSpace (fst (GoStrings.DecodeRune t)) = true.
Proof.
  intros Htrim.
  destruct t as [|b t]; [by left|]. right. revert Htrim.
  unfold GoStrings.TrimRightFunc, GoStrings.lastIndexFunc.
  set (s := b :: t).
  destruct (GoStrings.lastIndexFunc_aux _ _ _ _ _) as [j|] eqn:Hj.
  - assert (Hw := DecodeRune_width (drop j s)).
    destruct (s !! j) as [c|] eqn:Hc; [|done].
    destruct (GoStrings.RuneSelf <=? c)%N; [|done].
    destruct j as [|j]; [|done]. rewrite drop_0 in *.
    destruct (snd (GoStrings.DecodeRune s)) as [|w]; [|done].
    assert (s <> []) as Hne by done. apply Hw in Hne. lia.
  - intros _. apply (lastIndexFunc_aux_None s (length s) (length s));
      [lia | cbn; lia | done].
Qed.

Lemma indexFunc_aux_None rs f i :
  GoStrings.indexFunc_aux rs f false i = None ->
  forallb (fun rw => f (fst rw)) rs = true.
Proof.
  revert i. induction rs as [|[r w] rs IH]; intros i; cbn; [done|].
  destruct (f r); cbn; [apply IH | done].
Qed.

(** [indexFunc] stops at the start of a rune that fails the test. *)
Lemma indexFunc_aux_Some fuel s f i0 i :
  GoStrings.indexFunc_aux (GoStrings.range_aux fuel s) f false i0 = Some i ->
  exists k, i = i0 + k /\ drop k s <> [] /\
            f (fst (GoStrings.DecodeRune (drop k s))) = false.
Proof.
  revert s i0. induction fuel as [|fuel IH]; intros s i0; cbn; [done|].
  destruct s as [|b s]; [done|]. set (t := b :: s).
  cbn [GoStrings.indexFunc_aux].
  destruct (GoStrings.DecodeRune t) as [r w] eqn:Hr. cbn [snd].
  destruct (f r) eqn:Hf; cbn [Bool.eqb].
  - intros (k & -> & Hne & Hk)%IH. exists (w + k).
    rewrite drop_drop in Hne, Hk. split_and!; [lia | done | done].
  - intros [= <-]. exists 0. rewrite drop_0, Hr. split_and!; [lia | done | done].
Qed.

Lemma of_bytes_nil l : GoStrings.of_bytes l = "" -> l = [].
Proof. by destruct l. Qed.

(** [strings.TrimSpace] gives the empty string for the strings made of
    white space, and for no other. *)
Lemma TrimSpace_empty_iff s :
  GoStrings.TrimSpace s = "" <-> GoStrings.whitespace_only s = true.
Proof.
  split; [|apply TrimSpace_whitespace].
  unfold GoStrings.TrimSpace, GoStrings.TrimFunc, GoStrings.TrimLeftFunc,
    GoStrings.whitespace_only, GoStrings.indexFunc, GoStrings.range.
  intros H%of_bytes_nil. revert H.
  destruct (GoStrings.indexFunc_aux _ _ _ _) as [i|] eqn:Hi;
    [|intros _; by eapply indexFunc_aux_None].
  apply indexFunc_aux_Some in Hi as (k & -> & Hne & Hk). cbn [Nat.add].
  intros [Hnil | Hsp]%TrimRightFunc_nil; congruence.
Qed.

(* ===================================================================== *)
(** ** What every run does and never does                                 *)
(* ===================================================================== *)

Ltac emits_all :=
  repeat (intros;
    match goal with
    | |- emits _ (let '(_, _) := ?x in _) => destruct x
    | |- emits _ (if ?b then _ else _) => destruct b
    | |- emits _ ((if ?b then _ else _) _ _) => destruct b
    | |- emits _ (bind _ _) => apply emits_bind
    | |- emits _ (ret _) => apply emits_ret
    | |- emits _ (fail _) => apply emits_fail
    | |- emits _ (Printf _ _ _) => apply emits_Printf
    | |- emits _ (call _ _) => apply emits_call
    | |- emits _ new_builder => apply emits_new_builder
    | |- emits _ builder_String => apply emits_builder_String
    | |- emits _ (Now_Format _ _) => apply emits_Now_Format
    | |- emits _ (os_Create _ _) => apply emits_os_Create
    | |- emits _ (Close _) => apply emits_Close
    | |- emits _ (pkg_report _ _ _ _ _) => apply emits_pkg_report
    | |- emits _ (pkg_report0 _ _ _ _ _) => apply emits_pkg_report0
    | |- emits _ (unchecked _) => apply emits_unchecked
    | |- emits _ (wrap _ _) => apply emits_wrap
    | |- emits _ (defer _ _) => apply emits_defer
    | |- emits _ (for_each _ _) => apply emits_for_each
    end).

(** Whatever the world, the lines [execute] logs go to the logger it was
    given, and without a report URL it makes none of the calls of an
    upload. *)
Lemma execute_events_sound W c u uri devices log :
  emits (fun e => logs_to log e /\ (Cmd.rpt c = "" -> is_upload e = false))
        (Cmd.execute W c u uri devices log).
Proof.
  unfold Cmd.execute, Cmd.report, Cmd.upload, Cmd.fetchS3, Cmd.fetchHTTP,
    Cmd.storeS3, Cmd.storeHTTP.
  emits_all.
  all: try (split; [by intros ??? [=] | by intros _]).
  all: try (split; [by intros ??? [=] | by intros ?]).
Qed.

(** X1: unless the URL is empty or all white space, the first thing
    [Execute] does is to parse the URL, and it parses the string as it
    was given, white space around it included. *)
Theorem Execute_parses_url_as_given (W : World) (c : Cmd.CompareACL) (st : State) :
  GoStrings.whitespace_only (Cmd.acl c) = false ->
  exists evs, events (Cmd.Execute W c st) = EvUrlParse (Cmd.acl c) :: evs.
Proof.
  intros Hws. unfold Cmd.Execute. rewrite decide_False; cycle 1.
  { rewrite TrimSpace_empty_iff. congruence. }
  rewrite bind_events. unfold wrap at 1, call at 1. cbn [events snd app].
  by destruct (w_url_Parse W (Cmd.acl c)); eexists.
Qed.

Lemma Execute_parses_url_as_given_padded :
  exists evs,
    events (Cmd.Execute Sample.world (Sample.cmd (" " +:+ Sample.good_url) "" false)
              (initial ∅)) =
    EvUrlParse (" " +:+ Sample.good_url) :: evs.
Proof.
  apply (Execute_parses_url_as_given Sample.world
           (Sample.cmd (" " +:+ Sample.good_url) "" false) (initial ∅)).
  vm_compute. reflexivity.
Defined.

(** X2: a URL that does not parse, or a configuration that does not
    load, ends [Execute] there: the error is wrapped in the command's own
    message, the configuration is not read after a bad URL, and in either
    case no device is looked up and nothing is fetched. *)
Theorem Execute_setup_errors (W : World) (c : Cmd.CompareACL) (st : State)
    (err : error) :
  GoStrings.whitespace_only (Cmd.acl c) = false ->
  (w_url_Parse W (Cmd.acl c) = Err err ->
   Cmd.Execute W c st =
     (Err (invalid_url (Cmd.acl c) err), st, [EvUrlParse (Cmd.acl c)])) /\
  (forall uri,
     w_url_Parse W (Cmd.acl c) = Ok uri ->
     w_conf_Load W (Cmd.config c) = Err err ->
     Cmd.Execute W c st =
       (Err (config_unreadable err), st,
        [EvUrlParse (Cmd.acl c); EvConfLoad (Cmd.config c)])).
Proof.
  intros Hws. unfold Cmd.Execute. rewrite decide_False; cycle 1.
  { rewrite TrimSpace_empty_iff. congruence. }
  split.
  - intros Hu. erewrite bind_stop; [reflexivity|].
    unfold wrap, call. by rewrite Hu.
  - intros uri Hu Hc. erewrite bind_run; cycle 1.
    { unfold wrap, call. by rewrite Hu. }
    erewrite bind_stop; [reflexivity|].
    unfold wrap, call. by rewrite Hc.
Qed.

Lemma Execute_setup_errors_sample :
  Cmd.Execute (faulty BadURL) (Sample.cmd ":8080/acl" "" false) (initial ∅) =
    (Err "Invalid ACL file URL ':8080/acl' (missing protocol scheme)",
     initial ∅, [EvUrlParse ":8080/acl"]) /\
  Cmd.Execute (faulty BadConfig) (Sample.cmd Sample.good_url "" false) (initial ∅) =
    (Err "WARN  Could not load configuration (open /etc/uhppoted/uhppoted.conf: no such file or directory)",
     initial ∅,
     [EvUrlParse Sample.good_url; EvConfLoad "/etc/uhppoted/uhppoted.conf"]).
Proof.
  split.
  - apply (Execute_setup_errors (faulty BadURL) (Sample.cmd ":8080/acl" "" false)
             (initial ∅) "missing protocol scheme"); vm_compute; reflexivity.
  - apply (proj2 (Execute_setup_errors (faulty BadConfig)
                    (Sample.cmd Sample.good_url "" false) (initial ∅)
                    "open /etc/uhppoted/uhppoted.conf: no such file or directory"
                    ltac:(vm_compute; reflexivity)) Sample.good_url);
      reflexivity.
Defined.

(** X3: whatever happens in a run of [Execute], every line it logs goes
    to the one logger chosen by [nolog]: the rotating log file
    [logFile] of size [logFileSize], or stdout with the prefix [ACL ]. *)
Theorem Execute_logs_to_chosen_logger (W : World) (c : Cmd.CompareACL)
    (st : State) :
  Forall (logs_to (chosen_logger c)) (events (Cmd.Execute W c st)).
Proof.
  revert st. change (emits (logs_to (chosen_logger c)) (Cmd.Execute W c)).
  unfold Cmd.Execute. destruct (decide _); [apply emits_fail|].
  apply emits_bind; [apply emits_wrap, emits_call; by intros ??? [=] | intros uri].
  apply emits_bind; [apply emits_wrap, emits_call; by intros ??? [=] | intros conf].
  apply emits_bind; [apply emits_call; by intros ??? [=] | intros ud].
  intros st. eapply Forall_impl; [apply execute_events_sound|].
  by intros e [He _].
Qed.

(* ===================================================================== *)
(** ** The steps before the report                                        *)
(* ===================================================================== *)

Lemma fetch_fails W c uri log st e :
  fetched W (Cmd.credentials c) (Cmd.region c) uri = Err e ->
  (if GoStrings.HasPrefix uri "s3://" then Cmd.fetchS3 W c else Cmd.fetchHTTP W)
    uri log st =
  (Err e, st, [fetch_event (Cmd.credentials c) (Cmd.region c) uri]).
Proof.
  unfold fetched, fetch_event. intros H.
  destruct (GoStrings.HasPrefix uri "s3://");
    unfold Cmd.fetchS3, Cmd.fetchHTTP, bind, call; rewrite H; reflexivity.
Qed.

Lemma fetch_fails0 W c uri log st e :
  fetched W (Cmd0.credentials c) (Cmd0.region c) uri = Err e ->
  (if GoStrings.HasPrefix uri "s3://" then Cmd0.fetchS3 W c else Cmd0.fetchHTTP W)
    uri log st =
  (Err e, st, [fetch_event (Cmd0.credentials c) (Cmd0.region c) uri]).
Proof.
  unfold fetched, fetch_event. intros H.
  destruct (GoStrings.HasPrefix uri "s3://");
    unfold Cmd0.fetchS3, Cmd0.fetchHTTP, bind, call; rewrite H; reflexivity.
Qed.

Lemma verify_step W keysdir tsv sg un (nv : bool) st :
  (if nv then None else w_verify W un tsv sg keysdir) = None ->
  (if negb nv
   then call (EvVerify un tsv sg keysdir) (of_error (w_verify W un tsv sg keysdir))
   else ret tt) st =
  (Ok tt, st, if nv then [] else [EvVerify un tsv sg keysdir]).
Proof. destruct nv; [done|]. cbn [negb]. unfold call. by intros ->. Qed.

Lemma verify_stops W keysdir tsv sg un (nv : bool) st e :
  (if nv then None else w_verify W un tsv sg keysdir) = Some e ->
  (if negb nv
   then call (EvVerify un tsv sg keysdir) (of_error (w_verify W un tsv sg keysdir))
   else ret tt) st =
  (Err e, st, [EvVerify un tsv sg keysdir]).
Proof. destruct nv; [done|]. cbn [negb]. unfold call. by intros ->. Qed.

(** A run of [execute] that fails before the report. *)
Lemma execute_early_exit W c u uri devices log st e evs :
  early_exit W (Cmd.credentials c) (Cmd.region c) (Cmd.keysdir c)
             (Cmd.noverify c) u uri devices log = Some (e, evs) ->
  Cmd.execute W c u uri devices log st = (Err e, st, evs).
Proof.
  unfold early_exit, Cmd.execute, retrieving, parsing, verdict, verify_event,
    unpacking, untar_tsv, untar_signature, untar_uname.
  erewrite bind_run by reflexivity. cbv beta zeta.
  destruct (fetched _ _ _ _) as [b|e'] eqn:Hf.
  2:{ intros [= <- <-]. by erewrite bind_stop by (by apply fetch_fails). }
  erewrite bind_run by (by apply fetch_step). cbv beta.
  erewrite bind_run by reflexivity. cbv beta.
  destruct (w_untar W b) as [[[tsv sg] un] er] eqn:Hu. cbn [fst snd].
  erewrite bind_run by reflexivity. cbv beta.
  destruct (if Cmd.noverify c then None else _) as [e'|] eqn:Hv.
  { intros [= <- <-]. by erewrite bind_stop by (by apply verify_stops). }
  erewrite bind_run by (by apply verify_step). cbv beta.
  destruct (w_ParseTSV W tsv devices) as [list_|e'] eqn:Hp.
  2:{ intros [= <- <-].
      erewrite bind_stop by reflexivity.
      cbn [outcome final events fst snd app]. by rewrite <- ?app_assoc. }
  erewrite bind_run by reflexivity.
  erewrite bind_run by apply for_each_Printf. cbv beta.
  destruct (w_GetACL W u devices) as [current|e'] eqn:Hg; [done|].
  intros [= <- <-].
  erewrite bind_stop by reflexivity.
  cbn [outcome final events fst snd app]. by rewrite <- ?app_assoc.
Qed.

Lemma execute0_early_exit W c u uri devices log st e evs :
  early_exit W (Cmd0.credentials c) (Cmd0.region c) (Cmd0.keysdir c)
             (Cmd0.noverify c) u uri devices log = Some (e, evs) ->
  Cmd0.execute W c u uri devices log st = (Err e, st, evs).
Proof.
  unfold early_exit, Cmd0.execute, retrieving, parsing, verdict, verify_event,
    unpacking, untar_tsv, untar_signature, untar_uname.
  erewrite bind_run by reflexivity. cbv beta zeta.
  destruct (fetched _ _ _ _) as [b|e'] eqn:Hf.
  2:{ intros [= <- <-]. by erewrite bind_stop by (by apply fetch_fails0). }
  erewrite bind_run by (by apply fetch_step0). cbv beta.
  erewrite bind_run by reflexivity. cbv beta.
  destruct (w_untar W b) as [[[tsv sg] un] er] eqn:Hu. cbn [fst snd].
  erewrite bind_run by reflexivity. cbv beta.
  destruct (if Cmd0.noverify c then None else _) as [e'|] eqn:Hv.
  { intros [= <- <-]. by erewrite bind_stop by (by apply verify_stops). }
  erewrite bind_run by (by apply verify_step). cbv beta.
  destruct (w_ParseTSV W tsv devices) as [list_|e'] eqn:Hp.
  2:{ intros [= <- <-].
      erewrite bind_stop by reflexivity.
      cbn [outcome final events fst snd app]. by rewrite <- ?app_assoc. }
  erewrite bind_run by reflexivity.
  erewrite bind_run by apply for_each_Printf. cbv beta.
  destruct (w_GetACL W u devices) as [current|e'] eqn:Hg; [done|].
  intros [= <- <-].
  erewrite bind_stop by reflexivity.
  cbn [outcome final events fst snd app]. by rewrite <- ?app_assoc.
Qed.

Lemma early_exit_None W cr rg kd (nv : bool) u uri devices log :
  early_exit W cr rg kd nv u uri devices log = None ->
  exists b list_ current,
    fetched W cr rg uri = Ok b /\
    (nv = true \/ verdict W kd b = None) /\
    w_ParseTSV W (untar_tsv W b) devices = Ok list_ /\
    w_GetACL W u devices = Ok current.
Proof.
  unfold early_exit. intros H.
  destruct (fetched W cr rg uri) as [b|]; [|done].
  destruct (w_ParseTSV W (untar_tsv W b) devices) as [list_|] eqn:Hp;
    [|by destruct (if nv then _ else _)].
  destruct (w_GetACL W u devices) as [current|] eqn:Hg;
    [|by destruct (if nv then _ else _)].
  exists b, list_, current. split_and!; try done.
  destruct nv; [by left|right]. by destruct (verdict W kd b).
Qed.

Ltac early_cases H :=
  unfold early_exit in H;
  repeat match type of H with
  | match ?x with _ => _ end = _ => destruct x eqn:?
  end;
  try discriminate H;
  injection H as <- <-.

Ltac member_cases :=
  repeat match goal with
  | H : _ ∈ [] |- _ => by apply elem_of_nil in H
  | H : _ ∈ _ ++ _ |- _ => apply elem_of_app in H as [H|H]
  | H : _ ∈ _ :: _ |- _ => apply elem_of_cons in H as [H|H]
  | H : _ ∈ (if ?b then _ else _) |- _ => destruct b
  | H : _ ∈ map _ _ |- _ => apply list_elem_of_In, in_map_iff in H as (? & H & _)
  | H : EvLog _ _ _ = (if ?b then _ else _) |- _ => destruct b
  | H : (if ?b then _ else _) = EvLog _ _ _ |- _ => destruct b
  | H : EvLog _ _ _ = _ |- _ => discriminate H
  | H : _ = EvLog _ _ _ |- _ => discriminate H
  end.

Lemma early_exit_before_report W cr rg kd (nv : bool) u uri devices log e evs :
  early_exit W cr rg kd nv u uri devices log = Some (e, evs) ->
  EvLog log "Generating ACL 'diff' report" [] ∉ evs.
Proof.
  intros H Hin. early_cases H;
    unfold retrieving, parsing, unpacking, verify_event, fetch_event in Hin;
    member_cases.
Qed.

Lemma Forall_map_log (P : event -> Prop) {A} lg (f : A -> string) (g : A -> list arg) xs :
  (forall x, P (EvLog lg (f x) (g x))) ->
  Forall P (map (fun x => EvLog lg (f x) (g x)) xs).
Proof. intros H. induction xs; constructor; auto. Qed.

Ltac forall_events :=
  repeat first
    [ apply Forall_nil_2
    | apply Forall_cons; split
    | apply Forall_app; split
    | apply Forall_map_log; intros ?
    | match goal with |- Forall _ (if ?b then _ else _) => destruct b end ].

Lemma early_exit_one_fetch W cr rg kd (nv : bool) u uri devices log e evs :
  early_exit W cr rg kd nv u uri devices log = Some (e, evs) ->
  exists rest,
    evs = EvLog log "Fetching ACL from %v" [AStr uri]
          :: fetch_event cr rg uri :: rest /\
    Forall (fun ev => is_fetch ev = false) rest.
Proof.
  intros H. early_cases H; unfold retrieving, parsing, unpacking, verify_event;
    cbn [app]; eexists; (split; [reflexivity|]); forall_events; reflexivity.
Qed.

Lemma reporting_no_fetch W c current list_ log :
  emits (fun ev => is_fetch ev = false) (reporting W c current list_ log).
Proof.
  unfold reporting, Cmd.report, Cmd.upload, Cmd.storeS3, Cmd.storeHTTP.
  emits_all; reflexivity.
Qed.

(** X4: [execute] returns the error of the first step that fails, taking
    the steps in the order fetch, verification (unless it is bypassed),
    parsing and retrieval of the device state: it stops at that call,
    the state is as it was, and nothing of the report is begun. The
    earlier revision does the same, call for call. *)
Theorem execute_stops_at_first_failure (W : World) (c : Cmd.CompareACL)
    (u : IDevice) (uri : string) (devices : list Device) (log : Logger)
    (st : State) (e : error) (evs : list event) :
  early_exit W (Cmd.credentials c) (Cmd.region c) (Cmd.keysdir c)
             (Cmd.noverify c) u uri devices log = Some (e, evs) ->
  Cmd.execute W c u uri devices log st = (Err e, st, evs) /\
  Cmd0.execute W (to_cmd0 c) u uri devices log st = (Err e, st, evs).
Proof.
  intros H. split; [by apply execute_early_exit | by apply execute0_early_exit].
Qed.

Lemma execute_stops_at_first_failure_offline :
  let W := faulty DeviceOffline in
  let c := Sample.cmd Sample.good_url "" false in
  let evs :=
    retrieving W (Cmd.credentials c) (Cmd.region c) (Cmd.keysdir c)
      Sample.good_url false [Sample.controller] Sample.logger
      Sample.archive Sample.authoritative in
  Cmd.execute W c Sample.u Sample.good_url [Sample.controller] Sample.logger
    (initial ∅) = (Err "timeout waiting for reply", initial ∅, evs) /\
  Cmd0.execute W (to_cmd0 c) Sample.u Sample.good_url [Sample.controller]
    Sample.logger (initial ∅) = (Err "timeout waiting for reply", initial ∅, evs).
Proof.
  cbv zeta.
  apply (execute_stops_at_first_failure (faulty DeviceOffline)
           (Sample.cmd Sample.good_url "" false) Sample.u Sample.good_url
           [Sample.controller] Sample.logger (initial ∅)).
  vm_compute. reflexivity.
Defined.

(** X5: [execute] begins the report (its first line in the log is
    [Generating ACL 'diff' report]) exactly when the fetch, the
    verification (unless bypassed), the parsing and the retrieval of the
    device state all succeed. *)
Theorem report_begun_iff_steps_succeed (W : World) (c : Cmd.CompareACL)
    (u : IDevice) (uri : string) (devices : list Device) (log : Logger)
    (st : State) :
  EvLog log "Generating ACL 'diff' report" []
    ∈ events (Cmd.execute W c u uri devices log st) <->
  early_exit W (Cmd.credentials c) (Cmd.region c) (Cmd.keysdir c)
             (Cmd.noverify c) u uri devices log = None.
Proof.
  destruct (early_exit _ _ _ _ _ _ _ _ _) as [[e evs]|] eqn:H.
  - rewrite (execute_early_exit _ _ _ _ _ _ _ _ _ H). cbn [events snd].
    split; [|done]. intros Hin. by apply early_exit_before_report in H.
  - split; [done|intros _].
    apply early_exit_None in H as (b & list_ & current & Hf & Hv & Hp & Hg).
    rewrite (execute_to_report W c u uri devices log st b list_ current) by done.
    cbn [events snd]. apply elem_of_app. right.
    unfold reporting, Cmd.report. rewrite !bind_events.
    cbn [Printf emit events snd app]. apply elem_of_cons. by left.
Qed.

(** X6: a run of [execute] fetches once, as the second thing it does
    after announcing it in the log: from S3, with the command's
    credentials and region, when the URI begins with [s3://], and over
    HTTP otherwise. Nothing is fetched again later in the run. *)
Theorem execute_fetches_once (W : World) (c : Cmd.CompareACL) (u : IDevice)
    (uri : string) (devices : list Device) (log : Logger) (st : State) :
  exists rest,
    events (Cmd.execute W c u uri devices log st) =
      EvLog log "Fetching ACL from %v" [AStr uri]
      :: (if GoStrings.HasPrefix uri "s3://"
          then EvFetchS3 uri (Cmd.credentials c) (Cmd.region c)
          else EvFetchHTTP uri)
      :: rest /\
    Forall (fun ev => is_fetch ev = false) rest.
Proof.
  destruct (early_exit W (Cmd.credentials c) (Cmd.region c) (Cmd.keysdir c)
              (Cmd.noverify c) u uri devices log) as [[e evs]|] eqn:H.
  - rewrite (execute_early_exit _ _ _ _ _ _ _ _ _ H). cbn [events snd].
    by apply early_exit_one_fetch in H.
  - apply early_exit_None in H as (b & list_ & current & Hf & Hv & Hp & Hg).
    rewrite (execute_to_report W c u uri devices log st b list_ current) by done.
    cbn [events snd]. unfold retrieval, unpacking, verify_event. cbn [app].
    eexists. split; [reflexivity|].
    forall_events; try reflexivity.
    apply reporting_no_fetch.
Qed.

(* ===================================================================== *)
(** ** The report step                                                    *)
(* ===================================================================== *)

Lemma pkg_report_run W current list_ template w st :
  pkg_report W current list_ template w st =
  (of_error (snd (w_report W current list_ template w)),
   written w (fst (w_report W current list_ template w)) st,
   [EvReport current list_ template w;
    EvWrite w (fst (w_report W current list_ template w))]).
Proof.
  unfold pkg_report.
  erewrite bind_run by reflexivity. erewrite bind_run by reflexivity.
  reflexivity.
Qed.

Lemma report_stdout_run W c current list_ log st :
  Cmd.noreport c = true ->
  Cmd.report W c current list_ log st =
  (Ok tt,
   written Stdout (fst (w_report W current list_ (Cmd.template c) Stdout)) st,
   [EvLog log "Generating ACL 'diff' report" [];
    EvReport current list_ (Cmd.template c) Stdout;
    EvWrite Stdout (fst (w_report W current list_ (Cmd.template c) Stdout))]).
Proof.
  intros Hn. unfold Cmd.report. rewrite Hn.
  erewrite bind_run by reflexivity.
  erewrite bind_run by (unfold unchecked; rewrite pkg_report_run; reflexivity).
  reflexivity.
Qed.

Lemma report_unwritable W c current list_ log st e :
  Cmd.noreport c = false ->
  w_os_Create W (report_file W c (ticks st)) = Some e ->
  Cmd.report W c current list_ log st =
  (Err e, tick st,
   [EvLog log "Generating ACL 'diff' report" []; EvNow;
    EvCreate (report_file W c (ticks st))]).
Proof.
  intros Hn Hc. unfold Cmd.report. rewrite Hn.
  erewrite bind_run by reflexivity.
  erewrite bind_run by reflexivity.
  erewrite bind_stop; [reflexivity|].
  unfold os_Create. cbn [outcome fst]. fold (report_name W (ticks st)).
  fold (report_file W c (ticks st)). by rewrite Hc.
Qed.

Lemma report_file_run W c current list_ log st :
  Cmd.noreport c = false ->
  w_os_Create W (report_file W c (ticks st)) = None ->
  Cmd.report W c current list_ log st =
  (of_error (snd (w_report W current list_ (Cmd.template c)
                    (FileW (report_file W c (ticks st))))),
   set_fs (<[report_file W c (ticks st) := file_text W c current list_ (ticks st)]>
             (fs st)) (tick st),
   file_report_events W c current list_ log (ticks st)).
Proof.
  intros Hn Hc. unfold Cmd.report. rewrite Hn.
  erewrite bind_run by reflexivity.
  erewrite bind_run by reflexivity.
  cbn [outcome final fst snd]. fold (report_name W (ticks st)).
  fold (report_file W c (ticks st)).
  erewrite bind_run; cycle 1.
  { unfold os_Create. by rewrite Hc. }
  unfold defer. erewrite bind_run by reflexivity. rewrite pkg_report_run.
  cbn [outcome final events fst snd app Close emit written set_fs tick fs ticks
       stdout builder].
  rewrite lookup_insert_eq, insert_insert_eq. cbn [default].
  unfold file_report_events, file_text, set_fs, tick. cbn [fs stdout builder ticks].
  reflexivity.
Qed.

(** X7: when the report file cannot be created, the report step returns
    [os.Create]'s error at once: nothing is rendered or written, no file
    is closed, and the files are as they were. *)
Theorem report_create_failure (W : World) (c : Cmd.CompareACL)
    (current list_ : ACL) (log : Logger) (st : State) (e : error) :
  Cmd.noreport c = false ->
  w_os_Create W (report_file W c (ticks st)) = Some e ->
  Cmd.report W c current list_ log st =
    (Err e, tick st,
     [EvLog log "Generating ACL 'diff' report" []; EvNow;
      EvCreate (report_file W c (ticks st))]) /\
  fs (final (Cmd.report W c current list_ log st)) = fs st.
Proof.
  intros Hn Hc. by rewrite (report_unwritable W c current list_ log st e).
Qed.

Lemma report_create_failure_read_only :
  Cmd.report (faulty ReadOnlyDisk) (Sample.cmd Sample.good_url "" false)
    Sample.current Sample.authoritative Sample.logger (initial ∅) =
    (Err "open /var/uhppoted/acl-2020-08-14T120000.rpt: read-only file system",
     tick (initial ∅),
     [EvLog Sample.logger "Generating ACL 'diff' report" []; EvNow;
      EvCreate "/var/uhppoted/acl-2020-08-14T120000.rpt"]) /\
  fs (final (Cmd.report (faulty ReadOnlyDisk) (Sample.cmd Sample.good_url "" false)
               Sample.current Sample.authoritative Sample.logger (initial ∅))) = ∅.
Proof.
  apply (report_create_failure (faulty ReadOnlyDisk)
           (Sample.cmd Sample.good_url "" false) Sample.current
           Sample.authoritative Sample.logger (initial ∅)).
  - reflexivity.
  - vm_compute. reflexivity.
Defined.

(** X8: once the report file is created, it is closed on every path out
    of the report step, as the last thing the step does, whether the
    rendering succeeds or fails; the step returns what the rendering
    returned, and the file holds exactly what the renderer wrote,
    whatever the file held before. *)
Theorem report_file_closed_on_every_path (W : World) (c : Cmd.CompareACL)
    (current list_ : ACL) (log : Logger) (st : State) :
  Cmd.noreport c = false ->
  w_os_Create W (report_file W c (ticks st)) = None ->
  let file := report_file W c (ticks st) in
  let r := Cmd.report W c current list_ log st in
  outcome r = of_error (snd (w_report W current list_ (Cmd.template c) (FileW file))) /\
  events r = file_report_events W c current list_ log (ticks st) /\
  last (events r) = Some (EvClose file) /\
  fs (final r) = <[file := file_text W c current list_ (ticks st)]> (fs st).
Proof.
  intros Hn Hc file r. subst file r.
  by rewrite (report_file_run W c current list_ log st).
Qed.

Lemma report_file_closed_on_every_path_broken_template :
  let c := with_template "{{range" (Sample.cmd Sample.good_url "" false) in
  let file := "/var/uhppoted/acl-2020-08-14T120000.rpt" in
  let r := Cmd.report Sample.world c Sample.current Sample.authoritative
             Sample.logger (initial {[ file := "stale" ]}) in
  outcome r = Err "template: report: unexpected EOF" /\
  events r = file_report_events Sample.world c Sample.current
               Sample.authoritative Sample.logger 0 /\
  last (events r) = Some (EvClose file) /\
  fs (final r) = {[ file := "" ]}.
Proof.
  cbv zeta.
  pose proof (report_file_closed_on_every_path Sample.world
           (with_template "{{range" (Sample.cmd Sample.good_url "" false))
           Sample.current Sample.authoritative Sample.logger
           (initial {[ "/var/uhppoted/acl-2020-08-14T120000.rpt" := "stale" ]})
           eq_refl eq_refl) as H.
  cbv zeta in H. destruct H as (H1 & H2 & H3 & H4).
  split_and!.
  - exact H1.
  - exact H2.
  - exact H3.
  - rewrite H4. vm_compute. reflexivity.
Defined.

(* ===================================================================== *)
(** ** The files a run leaves                                             *)
(* ===================================================================== *)








(** X10: without a report URL a run of [Execute] signs nothing, archives
    nothing and stores nothing, whatever else happens. *)
Theorem Execute_no_upload_without_report_url (W : World) (c : Cmd.CompareACL)
    (st : State) :
  Cmd.rpt c = "" ->
  Forall (fun e => is_upload e = false) (events (Cmd.Execute W c st)).
Proof.
  intros Hrpt. revert st.
  change (emits (fun e => is_upload e = false) (Cmd.Execute W c)).
  unfold Cmd.Execute. destruct (decide _); [apply emits_fail|].
  apply emits_bind; [by apply emits_wrap, emits_call | intros uri].
  apply emits_bind; [by apply emits_wrap, emits_call | intros conf].
  apply emits_bind; [by apply emits_call | intros ud].
  intros st. eapply Forall_impl; [apply execute_events_sound|].
  intros e [_ He]. by apply He.
Qed.

Lemma Execute_no_upload_without_report_url_sample :
  Forall (fun e => is_upload e = false)
    (events (Cmd.Execute Sample.world (Sample.cmd Sample.good_url "" false)
               (initial ∅))).
Proof.
  apply (Execute_no_upload_without_report_url Sample.world
           (Sample.cmd Sample.good_url "" false) (initial ∅)).
  reflexivity.
Defined.

(* ===================================================================== *)
(** ** The upload                                                         *)
(* ===================================================================== *)

Lemma store_step W c b st :
  (if GoStrings.HasPrefix (Cmd.rpt c) "s3://" then Cmd.storeS3 W c else Cmd.storeHTTP W)
    (Cmd.rpt c) b st =
  (of_error (stored W c b), st, [store_event c b]).
Proof.
  unfold stored, store_event, Cmd.storeS3, Cmd.storeHTTP, call.
  by destruct (GoStrings.HasPrefix _ _).
Qed.

Lemma upload_run W c current list_ log st signature b :
  snd (w_report W current list_ (Cmd.template c) BuilderW) = None ->
  w_sign W (list_byte_of_string (upload_text W c current list_)) (Cmd.keyfile c)
    = Ok signature ->
  w_targz W [mkFile (report_name W (ticks st))
               (list_byte_of_string (upload_text W c current list_));
             mkFile "signature" signature] = Ok b ->
  stored W c b = None ->
  Cmd.upload W c current list_ log st =
  (Ok tt, tick (set_builder (upload_text W c current list_) st),
   upload_events W c current list_ log (ticks st) signature b).
Proof.
  intros Hr Hs Ht Hst. unfold Cmd.upload.
  erewrite bind_run by reflexivity.
  erewrite bind_run by reflexivity.
  erewrite bind_run by (rewrite pkg_report_run, Hr; reflexivity).
  erewrite bind_run by reflexivity.
  erewrite bind_run by reflexivity.
  cbn [outcome final fst snd written set_builder tick builder ticks].
  change ("" +:+ ?x) with x.
  fold (upload_text W c current list_). fold (report_name W (ticks st)).
  erewrite bind_run by (unfold call; rewrite Hs; reflexivity).
  erewrite bind_run by (unfold call; rewrite Ht; reflexivity).
  erewrite bind_run by reflexivity.
  erewrite bind_run by (rewrite store_step, Hst; reflexivity).
  erewrite bind_run by reflexivity.
  reflexivity.
Qed.

Lemma upload_fails W c current list_ log st e evs :
  upload_exit W c current list_ log (ticks st) = Some (e, evs) ->
  Cmd.upload W c current list_ log st =
  (Err e,
   match snd (w_report W current list_ (Cmd.template c) BuilderW) with
   | Some _ => set_builder (upload_text W c current list_) st
   | None => tick (set_builder (upload_text W c current list_) st)
   end,
   evs).
Proof.
  unfold upload_exit, Cmd.upload. cbv zeta.
  erewrite bind_run by reflexivity.
  erewrite bind_run by reflexivity.
  destruct (snd (w_report W current list_ (Cmd.template c) BuilderW))
    as [e'|] eqn:Hr.
  { intros [= <- <-].
    by erewrite bind_stop by (rewrite pkg_report_run, Hr; reflexivity). }
  erewrite bind_run by (rewrite pkg_report_run, Hr; reflexivity).
  erewrite bind_run by reflexivity.
  erewrite bind_run by reflexivity.
  cbn [outcome final fst snd written set_builder tick builder ticks].
  change ("" +:+ ?x) with x.
  fold (upload_text W c current list_). fold (report_name W (ticks st)).
  destruct (w_sign W _ (Cmd.keyfile c)) as [signature|e'] eqn:Hs.
  2:{ intros [= <- <-]. by erewrite bind_stop by reflexivity. }
  erewrite bind_run by reflexivity.
  destruct (w_targz W _) as [b|e'] eqn:Ht.
  2:{ intros [= <- <-]. by erewrite bind_stop by reflexivity. }
  erewrite bind_run by reflexivity.
  erewrite bind_run by reflexivity.
  destruct (stored W c b) as [e'|] eqn:Hst; [|done].
  intros [= <- <-].
  by erewrite bind_stop by (rewrite store_step, Hst; reflexivity).
Qed.

(** X11: [upload] returns the error of the first of its steps that
    fails, taking them in the order rendering, signing, archiving and
    store, and stops at that call: a report that does not render is not
    signed, what is not signed is not archived, what is not archived is
    not stored, and a failed store is not logged as uploaded. The local
    files are as they were. *)
Theorem upload_stops_at_first_error (W : World) (c : Cmd.CompareACL)
    (current list_ : ACL) (log : Logger) (st : State) (e : error)
    (evs : list event) :
  upload_exit W c current list_ log (ticks st) = Some (e, evs) ->
  let r := Cmd.upload W c current list_ log st in
  outcome r = Err e /\ events r = evs /\ fs (final r) = fs st.
Proof.
  intros H r. subst r. rewrite (upload_fails W c current list_ log st e evs H).
  split_and!; [done..|]. by destruct (snd _).
Qed.

Lemma upload_stops_at_first_error_store :
  let c := Sample.cmd Sample.good_url Sample.report_url true in
  let text := upload_text (faulty StoreFails) c Sample.current Sample.authoritative in
  let files := [mkFile "acl-2020-08-14T120000.rpt" (list_byte_of_string text);
                mkFile "signature" Sample.signature] in
  let r := Cmd.upload (faulty StoreFails) c Sample.current Sample.authoritative
             Sample.logger (initial ∅) in
  outcome r = Err "AccessDenied" /\
  events r =
    [ EvLog Sample.logger "Uploading ACL 'diff' report" [];
      EvReport Sample.current Sample.authoritative Template.text BuilderW;
      EvWrite BuilderW text;
      EvNow;
      EvSign (list_byte_of_string text) "/etc/uhppoted/acl/keys/uhppoted";
      EvTargz files;
      EvLog Sample.logger
        "tar'd report (%v bytes) and signature (%v bytes): %v bytes"
        [AInt (len (list_byte_of_string text)); AInt (len Sample.signature);
         AInt (len (flat_map file_bytes files))];
      EvStoreS3 Sample.report_url "/etc/uhppoted/s3/credentials" "us-east-1"
                (flat_map file_bytes files) ] /\
  fs (final r) = ∅.
Proof.
  cbv zeta.
  apply (upload_stops_at_first_error (faulty StoreFails)
           (Sample.cmd Sample.good_url Sample.report_url true)
           Sample.current Sample.authoritative Sample.logger (initial ∅)).
  vm_compute. reflexivity.
Defined.

(** X12: a run that writes the local report and uploads it renders the
    report twice, into the file and into the upload's buffer, and reads
    the clock twice: the local file is named after the first reading and
    the report inside the archive after the second. The signature is
    made over exactly the bytes that are archived, and the archive goes
    to [rpt], to S3 or over HTTP by its scheme. *)
Theorem execute_report_and_upload (W : World) (c : Cmd.CompareACL)
    (u : IDevice) (uri : string) (devices : list Device) (log : Logger)
    (st : State) (b : bytes) (list_ current : ACL) (signature archive : bytes) :
  fetched W (Cmd.credentials c) (Cmd.region c) uri = Ok b ->
  (Cmd.noverify c = true \/ verdict W (Cmd.keysdir c) b = None) ->
  w_ParseTSV W (untar_tsv W b) devices = Ok list_ ->
  w_GetACL W u devices = Ok current ->
  Cmd.noreport c = false ->
  Cmd.rpt c <> "" ->
  w_os_Create W (report_file W c (ticks st)) = None ->
  snd (w_report W current list_ (Cmd.template c)
         (FileW (report_file W c (ticks st)))) = None ->
  snd (w_report W current list_ (Cmd.template c) BuilderW) = None ->
  w_sign W (list_byte_of_string (upload_text W c current list_)) (Cmd.keyfile c)
    = Ok signature ->
  w_targz W [mkFile (report_name W (S (ticks st)))
               (list_byte_of_string (upload_text W c current list_));
             mkFile "signature" signature] = Ok archive ->
  stored W c archive = None ->
  let r := Cmd.execute W c u uri devices log st in
  outcome r = Ok tt /\
  events r =
    retrieval W c uri devices log b list_
    ++ file_report_events W c current list_ log (ticks st)
    ++ upload_events W c current list_ log (S (ticks st)) signature archive /\
  fs (final r) =
    <[report_file W c (ticks st) := file_text W c current list_ (ticks st)]> (fs st) /\
  ticks (final r) = S (S (ticks st)).
Proof.
  intros Hf Hv Hp Hg Hn Hrpt Hc Hrf Hrb Hs Ht Hst r. subst r.
  rewrite (execute_to_report W c u uri devices log st b list_ current) by done.
  unfold reporting.
  erewrite bind_run by (rewrite report_file_run, Hrf by done; reflexivity).
  rewrite decide_True by done.
  erewrite bind_run; cycle 1.
  { by apply (upload_run W c current list_ log _ signature archive). }
  cbn [outcome final events fst snd ret]. rewrite app_nil_r.
  done.
Qed.

Lemma execute_report_and_upload_sample :
  let W := Sample.world in
  let c := Sample.cmd Sample.good_url Sample.report_url false in
  let text := upload_text W c Sample.current Sample.authoritative in
  let archive :=
    flat_map file_bytes
      [mkFile "acl-2020-08-14T120001.rpt" (list_byte_of_string text);
       mkFile "signature" Sample.signature] in
  let r := Cmd.execute W c Sample.u Sample.good_url [Sample.controller]
             Sample.logger (initial ∅) in
  outcome r = Ok tt /\
  events r =
    retrieval W c Sample.good_url [Sample.controller] Sample.logger
      Sample.archive Sample.authoritative
    ++ file_report_events W c Sample.current Sample.authoritative Sample.logger 0
    ++ upload_events W c Sample.current Sample.authoritative Sample.logger 1
         Sample.signature archive /\
  fs (final r) = {[ "/var/uhppoted/acl-2020-08-14T120000.rpt" := text ]} /\
  ticks (final r) = 2.
Proof.
  cbv zeta.
  pose proof (execute_report_and_upload Sample.world
           (Sample.cmd Sample.good_url Sample.report_url false)
           Sample.u Sample.good_url [Sample.controller] Sample.logger (initial ∅)
           Sample.archive Sample.authoritative Sample.current Sample.signature
           (flat_map file_bytes
              [mkFile "acl-2020-08-14T120001.rpt"
                 (list_byte_of_string
                    (upload_text Sample.world
                       (Sample.cmd Sample.good_url Sample.report_url false)
                       Sample.current Sample.authoritative));
               mkFile "signature" Sample.signature])) as H.
  cbv zeta in H.
  destruct H as (H1 & H2 & H3 & H4).
  - reflexivity.
  - right. vm_compute. reflexivity.
  - reflexivity.
  - reflexivity.
  - reflexivity.
  - vm_compute. discriminate.
  - reflexivity.
  - reflexivity.
  - reflexivity.
  - reflexivity.
  - vm_compute. reflexivity.
  - reflexivity.
  - split_and!.
    + exact H1.
    + exact H2.
    + rewrite H3. vm_compute. reflexivity.
    + exact H4.
Defined.

(* ===================================================================== *)
(** ** The devices of a report                                            *)
(* ===================================================================== *)

Lemma devices_of_skip xs tail :
  Forall (fun ch => ch <> Template.Text Template.device_hdr) xs ->
  devices_of (xs ++ tail) = devices_of tail.
Proof.
  induction 1 as [|ch xs Hch Hxs IH]; [done|].
  cbn [app devices_of]. destruct ch as [h|v]; [|done].
  destruct (xs ++ tail) as [|[h'|v'] rest]; try done.
  rewrite decide_False; [done|]. congruence.
Qed.

Lemma range_items_no_device {A} (fmt : A -> string) items :
  Forall (fun ch => ch <> Template.Text Template.device_hdr)
         (Template.range_items fmt items).
Proof.
  unfold Template.range_items. induction items as [|x items IH]; [constructor|].
  cbn [flat_map app]. by repeat constructor.
Qed.

Lemma devices_of_device fi fr fu id value tail :
  devices_of (Template.render_device fi fr fu id value ++ tail) =
  fi id :: devices_of tail.
Proof.
  unfold Template.render_device. rewrite <- !app_assoc.
  cbn [app devices_of]. rewrite decide_True by done. f_equal.
  rewrite !devices_of_skip; [done|..];
    (destruct (Template.truth _); [|constructor]);
    (constructor; [done|apply range_items_no_device]).
Qed.

Lemma devices_of_devices fi fr fu (Diffs : gmap N Diff) ids tail :
  Forall (fun id => is_Some (Diffs !! id)) ids ->
  devices_of (flat_map (fun id => match Diffs !! id with
                                  | Some value => Template.render_device fi fr fu id value
                                  | None => []
                                  end) ids ++ tail) =
  map fi ids ++ devices_of tail.
Proof.
  induction 1 as [|id ids [value Hid] _ IH]; [done|].
  cbn [flat_map map app]. rewrite Hid, <- app_assoc, devices_of_device.
  by rewrite IH.
Qed.

Lemma devices_of_header DateTime tail :
  devices_of ([Template.Text Template.title; Template.Value DateTime;
               Template.Text Template.nl] ++ tail) = devices_of tail.
Proof. by destruct tail as [|[h|v] tail]. Qed.

Lemma sorted_keys_elem_of {A} (m : gmap N A) id :
  id ∈ Template.sorted_keys m <-> is_Some (m !! id).
Proof.
  unfold Template.sorted_keys. rewrite merge_sort_Permutation.
  rewrite list_elem_of_In, in_map_iff. split.
  - intros ([k v] & <- & Hin). apply list_elem_of_In, elem_of_map_to_list in Hin.
    by eexists.
  - intros [v Hv]. exists (id, v). split; [done|].
    by apply list_elem_of_In, elem_of_map_to_list.
Qed.

(** X13: the report lists every device of the diff once, under its own
    [DEVICE] header, and lists the devices in ascending order of their
    identifiers, whatever order the diff was built in. *)
Theorem report_lists_devices_in_order (fmt_id : N -> string)
    (fmt_record : record -> string) (fmt_update : record * record -> string)
    (DateTime : string) (Diffs : gmap N Diff) :
  let ids := Template.sorted_keys Diffs in
  devices_of (Template.render fmt_id fmt_record fmt_update DateTime Diffs) =
    map fmt_id ids /\
  Sorted N.le ids /\
  NoDup ids /\
  (forall id, id ∈ ids <-> is_Some (Diffs !! id)).
Proof.
  intros ids. split_and!.
  - unfold Template.render.
    rewrite devices_of_header, devices_of_devices, app_nil_r; [done|].
    apply Forall_forall. intros id. apply sorted_keys_elem_of.
  - apply (Sorted_merge_sort N.le).
  - subst ids. unfold Template.sorted_keys. rewrite merge_sort_Permutation.
    apply NoDup_fst_map_to_list.
  - apply sorted_keys_elem_of.
Qed.

(* ===================================================================== *)
(** ** When a run succeeds                                                *)
(* ===================================================================== *)

Lemma upload_exit_None W c current list_ log n :
  upload_exit W c current list_ log n = None ->
  exists signature b,
    snd (w_report W current list_ (Cmd.template c) BuilderW) = None /\
    w_sign W (list_byte_of_string (upload_text W c current list_)) (Cmd.keyfile c)
      = Ok signature /\
    w_targz W [mkFile (report_name W n)
                 (list_byte_of_string (upload_text W c current list_));
               mkFile "signature" signature] = Ok b /\
    stored W c b = None.
Proof.
  unfold upload_exit. cbv zeta. intros H.
  destruct (snd (w_report W current list_ (Cmd.template c) BuilderW)) eqn:Hr;
    [done|].
  destruct (w_sign W _ (Cmd.keyfile c)) as [signature|] eqn:Hs; [|done].
  destruct (w_targz W _) as [b|] eqn:Ht; [|done].
  destruct (stored W c b) eqn:Hst; [done|].
  by exists signature, b.
Qed.

Lemma upload_outcome W c current list_ log st :
  outcome (Cmd.upload W c current list_ log st) = Ok tt <->
  upload_exit W c current list_ log (ticks st) = None.
Proof.
  destruct (upload_exit W c current list_ log (ticks st)) as [[e evs]|] eqn:H.
  - by rewrite (upload_fails W c current list_ log st e evs H).
  - apply upload_exit_None in H as (signature & b & Hr & Hs & Ht & Hst).
    by rewrite (upload_run W c current list_ log st signature b).
Qed.

Lemma after_report_outcome W c current list_ log st :
  outcome (((if decide (Cmd.rpt c <> "")
             then Cmd.upload W c current list_ log else ret tt) ;;; ret tt) st)
    = Ok tt <->
  Cmd.rpt c = "" \/ upload_exit W c current list_ log (ticks st) = None.
Proof.
  rewrite bind_outcome. destruct (decide (Cmd.rpt c <> "")) as [Hrpt|Hrpt].
  - rewrite <- upload_outcome.
    destruct (outcome (Cmd.upload W c current list_ log st)) as [[]|e].
    + split; [by right|done].
    + split; [done|]. by intros [?|?].
  - split; [intros _; left|done]. by destruct (decide (Cmd.rpt c = "")).
Qed.

(** X14: once the ACL is fetched, verified (or the verification
    bypassed), parsed and the device state retrieved, [execute] returns
    nil exactly when the report step has no fault (a report on stdout
    never has one; a report file must be created and rendered without
    error) and, if a report URL is given, every step of the upload
    succeeds. *)
Theorem execute_succeeds_iff (W : World) (c : Cmd.CompareACL) (u : IDevice)
    (uri : string) (devices : list Device) (log : Logger) (st : State)
    (b : bytes) (list_ current : ACL) :
  fetched W (Cmd.credentials c) (Cmd.region c) uri = Ok b ->
  (Cmd.noverify c = true \/ verdict W (Cmd.keysdir c) b = None) ->
  w_ParseTSV W (untar_tsv W b) devices = Ok list_ ->
  w_GetACL W u devices = Ok current ->
  outcome (Cmd.execute W c u uri devices log st) = Ok tt <->
  report_fault W c current list_ (ticks st) = None /\
  (Cmd.rpt c = "" \/
   upload_exit W c current list_ log (upload_tick c (ticks st)) = None).
Proof.
  intros Hf Hv Hp Hg.
  rewrite (execute_to_report W c u uri devices log st b list_ current) by done.
  cbn [outcome fst]. unfold reporting, report_fault, upload_tick.
  rewrite bind_outcome.
  destruct (Cmd.noreport c) eqn:Hn.
  - rewrite report_stdout_run by done. cbn [outcome final fst snd].
    rewrite after_report_outcome. cbn [written set_stdout ticks]. tauto.
  - destruct (w_os_Create W (report_file W c (ticks st))) as [e|] eqn:Hc.
    + rewrite (report_unwritable W c current list_ log st e) by done.
      cbn [outcome fst]. split; [done|]. by intros [? _].
    + rewrite report_file_run by done. cbn [outcome final fst snd].
      destruct (snd (w_report W current list_ (Cmd.template c) _)) as [e|].
      * cbn [of_error]. split; [done|]. by intros [? _].
      * cbn [of_error]. rewrite after_report_outcome.
        cbn [set_fs tick ticks]. tauto.
Qed.

Lemma execute_succeeds_iff_sample :
  outcome (Cmd.execute Sample.world
             (Sample.cmd Sample.good_url Sample.report_url false) Sample.u
             Sample.good_url [Sample.controller] Sample.logger (initial ∅))
    = Ok tt /\
  outcome (Cmd.execute (faulty TarFails)
             (Sample.cmd Sample.good_url Sample.report_url false) Sample.u
             Sample.good_url [Sample.controller] Sample.logger (initial ∅))
    <> Ok tt.
Proof.
  split.
  - apply (execute_succeeds_iff Sample.world
             (Sample.cmd Sample.good_url Sample.report_url false) Sample.u
             Sample.good_url [Sample.controller] Sample.logger (initial ∅)
             Sample.archive Sample.authoritative Sample.current).
    + reflexivity.
    + right. vm_compute. reflexivity.
    + reflexivity.
    + reflexivity.
    + split; [reflexivity|right; vm_compute; reflexivity].
  - intros H.
    apply (execute_succeeds_iff (faulty TarFails)
             (Sample.cmd Sample.good_url Sample.report_url false) Sample.u
             Sample.good_url [Sample.controller] Sample.logger (initial ∅)
             Sample.archive Sample.authoritative Sample.current) in H.
    + destruct H as [_ [H|H]]; vm_compute in H; discriminate H.
    + reflexivity.
    + right. vm_compute. reflexivity.
    + reflexivity.
    + reflexivity.
Defined.
